(** * QR generator: classification, normalisation and file naming

    A shallow embedding of [tools/generate_qr.py]: the content classifier
    [detect_type], the normaliser [format_content], the file-name helpers
    [make_filename] and [resolve_paths], the temporary-file discipline
    of [create_pdf], the bootstrap [ensure_dependencies] and the
    sequence of [main].

    Python strings are sequences of Unicode code points; they are lists
    of integers here.  What the interpreter does on ASCII is written
    out; what it does on the other code points (character classes and
    case mappings of the Unicode database) is a parameter [db]. *)

From Stdlib Require Import ZArith List Bool Lia String Ascii Decimal DecimalNat.
From stdpp Require Import base option list gmap.
Import ListNotations.

Local Open Scope Z_scope.

(** ** Strings *)

Abbreviation str := (list Z).

Definition chr (a : ascii) : Z := Z.of_N (N_of_ascii a).

(** A string literal of the source. *)
Definition lit (s : string) : list Z := map chr (list_ascii_of_string s).

Fixpoint str_eqb (a b : list Z) : bool :=
  match a, b with
  | [], [] => true
  | x :: a', y :: b' => (x =? y) && str_eqb a' b'
  | _, _ => false
  end.

(** [s.startswith(p)] *)
Fixpoint startswith (p s : list Z) : bool :=
  match p, s with
  | [], _ => true
  | x :: p', y :: s' => (x =? y) && startswith p' s'
  | _ :: _, [] => false
  end.

(** [str(n)] for a non-negative integer. *)
Fixpoint uint_chars (d : Decimal.uint) : list Z :=
  match d with
  | Nil => []
  | D0 d => 48 :: uint_chars d
  | D1 d => 49 :: uint_chars d
  | D2 d => 50 :: uint_chars d
  | D3 d => 51 :: uint_chars d
  | D4 d => 52 :: uint_chars d
  | D5 d => 53 :: uint_chars d
  | D6 d => 54 :: uint_chars d
  | D7 d => 55 :: uint_chars d
  | D8 d => 56 :: uint_chars d
  | D9 d => 57 :: uint_chars d
  end.

Definition str_of_nat (n : nat) : list Z := uint_chars (Nat.to_uint n).

(** ** The Unicode database

    The tables of the interpreter beyond ASCII.  [uni_lower] sees the
    text before and after the character, as the lower-casing of a
    capital sigma depends on its position in the word. *)

Record unicode_db := {
  uni_isspace : Z -> bool;                          (* str.isspace, \s *)
  uni_isdecimal : Z -> bool;                        (* \d *)
  uni_isalnum : Z -> bool;                          (* str.isalnum, \w *)
  uni_upper : Z -> list Z;                          (* full upper-case mapping *)
  uni_lower : list Z -> Z -> list Z -> list Z;      (* full lower-case mapping *)
  uni_ieq : Z -> Z -> bool                          (* pattern letter against a character, re.IGNORECASE *)
}.

Definition is_ascii (ch : Z) : bool := ch <? 128.

Definition in_range (lo hi ch : Z) : bool := (lo <=? ch) && (ch <=? hi).

Definition ascii_isspace (ch : Z) : bool := in_range 9 13 ch || in_range 28 32 ch.
Definition ascii_isdigit (ch : Z) : bool := in_range 48 57 ch.
Definition ascii_isupper (ch : Z) : bool := in_range 65 90 ch.
Definition ascii_islower (ch : Z) : bool := in_range 97 122 ch.
Definition ascii_isalpha (ch : Z) : bool := ascii_isupper ch || ascii_islower ch.
Definition ascii_upper (ch : Z) : Z := if ascii_islower ch then ch - 32 else ch.
Definition ascii_lower (ch : Z) : Z := if ascii_isupper ch then ch + 32 else ch.

(** An excerpt of the Unicode database: the white space beyond ASCII
    and LATIN CAPITAL LETTER I WITH DOT ABOVE (U+0130), a letter whose
    lower case is the two code points U+0069 U+0307 and which matches
    the pattern letter i when case is ignored.  Every other code point
    beyond ASCII is taken as a caseless symbol. *)
Definition ucd_excerpt : unicode_db := {|
  uni_isspace := fun ch =>
    (ch =? 133) || (ch =? 160) || (ch =? 5760) || in_range 8192 8202 ch
    || (ch =? 8232) || (ch =? 8233) || (ch =? 8239) || (ch =? 8287) || (ch =? 12288);
  uni_isdecimal := fun _ => false;
  uni_isalnum := fun ch => ch =? 304;
  uni_upper := fun ch => [ch];
  uni_lower := fun _ ch _ => if ch =? 304 then [105; 775] else [ch];
  uni_ieq := fun l ch => (ch =? 304) && (l =? 105)
|}.

(** ** Regular expressions

    The fragment of [re] the program uses: character classes,
    concatenation, alternation and repetition.  [re.match] looks for a
    match at the beginning of the string, so the leading [^] of the
    source patterns adds nothing and is not represented; a trailing [$]
    is the [re_match_dollar] entry point. *)

Inductive regex :=
| Void
| Eps
| Cls (p : Z -> bool)
| Cat (r1 r2 : regex)
| Alt (r1 r2 : regex)
| Star (r : regex).

Definition Opt (r : regex) : regex := Alt r Eps.         (* r? *)
Definition Plus (r : regex) : regex := Cat r (Star r).   (* r+ *)

Fixpoint AtLeast (n : nat) (r : regex) : regex :=        (* r{n,} *)
  match n with
  | O => Star r
  | S k => Cat r (AtLeast k r)
  end.

Fixpoint Seq (ps : list (Z -> bool)) : regex :=
  match ps with
  | [] => Eps
  | p :: ps' => Cat (Cls p) (Seq ps')
  end.

Fixpoint nullable (r : regex) : bool :=
  match r with
  | Void => false
  | Eps => true
  | Cls _ => false
  | Cat r1 r2 => nullable r1 && nullable r2
  | Alt r1 r2 => nullable r1 || nullable r2
  | Star _ => true
  end.

Fixpoint deriv (ch : Z) (r : regex) : regex :=
  match r with
  | Void => Void
  | Eps => Void
  | Cls p => if p ch then Eps else Void
  | Cat r1 r2 =>
      if nullable r1 then Alt (Cat (deriv ch r1) r2) (deriv ch r2)
      else Cat (deriv ch r1) r2
  | Alt r1 r2 => Alt (deriv ch r1) (deriv ch r2)
  | Star r1 => Cat (deriv ch r1) (Star r1)
  end.

(** The whole of [s] matches [r]. *)
Fixpoint fullmatch (r : regex) (s : list Z) : bool :=
  match s with
  | [] => nullable r
  | ch :: s' => fullmatch (deriv ch r) s'
  end.

(** [re.match(r, s)] is not [None]: some prefix of [s] matches [r]. *)
Fixpoint re_match (r : regex) (s : list Z) : bool :=
  nullable r ||
  match s with
  | [] => false
  | ch :: s' => re_match (deriv ch r) s'
  end.

(** [re.match(r'...$', s)] is not [None]: [$] holds at the end of the
    string and just before a newline that ends the string. *)
Definition re_match_dollar (r : regex) (s : list Z) : bool :=
  fullmatch r s ||
  match rev s with
  | 10 :: s' => fullmatch r (rev s')
  | _ => false
  end.

(** The length of the longest prefix of [s] that matches [r]. *)
Fixpoint longest (r : regex) (s : list Z) : option nat :=
  match s with
  | [] => if nullable r then Some O else None
  | ch :: s' =>
      match longest (deriv ch r) s' with
      | Some n => Some (S n)
      | None => if nullable r then Some O else None
      end
  end.

(** [re.sub(r, repl, s)] for a pattern that matches no empty string and
    whose first match is its longest (a class, or a greedy repetition
    of one): scanning from the left, every match is replaced by [repl]
    and the scan resumes behind it.  [skip] counts the characters of
    the current match still to be dropped. *)
Fixpoint re_sub_from (r : regex) (repl : list Z) (skip : nat) (s : list Z) : list Z :=
  match s with
  | [] => []
  | ch :: s' =>
      match skip with
      | S k => re_sub_from r repl k s'
      | O =>
          match longest r s with
          | Some (S n) => repl ++ re_sub_from r repl n s'
          | _ => ch :: re_sub_from r repl O s'
          end
      end
  end.

Definition re_sub (r : regex) (repl s : list Z) : list Z := re_sub_from r repl O s.

(** The strings a pattern denotes. *)
Inductive matches : regex -> list Z -> Prop :=
| m_eps : matches Eps []
| m_cls p ch : p ch = true -> matches (Cls p) [ch]
| m_cat r1 r2 s1 s2 :
    matches r1 s1 -> matches r2 s2 -> matches (Cat r1 r2) (s1 ++ s2)
| m_alt_l r1 r2 s : matches r1 s -> matches (Alt r1 r2) s
| m_alt_r r1 r2 s : matches r2 s -> matches (Alt r1 r2) s
| m_star_nil r : matches (Star r) []
| m_star_more r s1 s2 :
    matches r s1 -> matches (Star r) s2 -> matches (Star r) (s1 ++ s2).

(** ** Dates *)

Record date := { year : nat; month : nat; day : nat }.

(** [s.zfill(w)] on a string of digits. *)
Definition zfill (w : nat) (s : str) : str := repeat 48 (w - length s)%nat ++ s.

(** [d.isoformat()]: [%04d-%02d-%02d]. *)
Definition isoformat (d : date) : str :=
  zfill 4 (str_of_nat (year d)) ++ lit "-" ++
  zfill 2 (str_of_nat (month d)) ++ lit "-" ++
  zfill 2 (str_of_nat (day d)).

(** A date of the calendar as [datetime.date] holds it. *)
Definition valid_date (d : date) : Prop :=
  1 <= Z.of_nat (year d) <= 9999 /\
  1 <= Z.of_nat (month d) <= 12 /\
  1 <= Z.of_nat (day d) <= 31.

Definition is_digit_char (ch : Z) : Prop := 48 <= ch <= 57.

(** The form [YYYY-MM-DD]. *)
Definition iso_form (s : str) : Prop :=
  exists y m d,
    s = y ++ lit "-" ++ m ++ lit "-" ++ d /\
    length y = 4%nat /\ length m = 2%nat /\ length d = 2%nat /\
    Forall is_digit_char y /\ Forall is_digit_char m /\ Forall is_digit_char d.

(** ** The file system

    A disk maps the paths that exist to the identity of the file stored
    there; [fresh] is the next identity to hand out.  Several paths may
    lead to one file.  Symbolic links are not modelled: a write to an
    absent path creates the file under that path only, so the theorems
    on what a run leaves on the disk speak of the files that were there
    and of the paths the program names, not of every other path. *)

Record disk := {
  files : gmap (list Z) nat;
  fresh : nat
}.

(** Identities on the disk were handed out earlier. *)
Definition disk_wf (d : disk) : Prop :=
  forall p i, files d !! p = Some i -> (i < fresh d)%nat.

Definition os_path_exists (d : disk) (p : str) : bool :=
  bool_decide (is_Some (files d !! p)).

(** A new file at [p]. *)
Definition create_file (p : str) (d : disk) : disk :=
  {| files := <[p := fresh d]> (files d); fresh := S (fresh d) |}.

(** Opening [p] for writing: the file that is there is rewritten, a
    missing one is created. *)
Definition write_file (p : str) (d : disk) : disk :=
  if os_path_exists d p then d else create_file p d.

Definition os_unlink (p : str) (d : disk) : disk :=
  {| files := delete p (files d); fresh := fresh d |}.

Definition endswith (p s : str) : bool := startswith (rev p) (rev s).

(** [os.path.join(a, b)] (POSIX). *)
Definition os_path_join (a b : str) : str :=
  if startswith (lit "/") b then b
  else if str_eqb a [] || endswith (lit "/") a then a ++ b
  else a ++ lit "/" ++ b.

(** [resolve_paths], the loop unrolled [fuel] times; [None] when the
    fuel runs out before the loop ends. *)
Fixpoint resolve_loop (fuel : nat) (d : disk) (archive_dir base_name : str)
    (counter : nat) (png_path pdf_path : str) : option (str * str) :=
  match fuel with
  | O => None
  | S fuel' =>
      if os_path_exists d png_path || os_path_exists d pdf_path then
        resolve_loop fuel' d archive_dir base_name (S counter)
          (os_path_join archive_dir (base_name ++ lit "-" ++ str_of_nat counter ++ lit ".png"))
          (os_path_join archive_dir (base_name ++ lit "-" ++ str_of_nat counter ++ lit ".pdf"))
      else Some (png_path, pdf_path)
  end.

Definition resolve_paths (fuel : nat) (d : disk) (archive_dir base_name : str)
    : option (str * str) :=
  resolve_loop fuel d archive_dir base_name 2
    (os_path_join archive_dir (base_name ++ lit ".png"))
    (os_path_join archive_dir (base_name ++ lit ".pdf")).

(** The directory part [os.path.join] puts before a relative name. *)
Definition dir_prefix (a : str) : str :=
  if str_eqb a [] || endswith (lit "/") a then a else a ++ lit "/".

(** What the [j]-th stem adds to the base name. *)
Definition stem_suffix (j : nat) : str :=
  match j with
  | O => []
  | S i => lit "-" ++ str_of_nat (i + 2)
  end.

(** The disk once both files of a pair are written. *)
Definition written (pp : list Z * list Z) (d : disk) : disk :=
  write_file (snd pp) (write_file (fst pp) d).

(** ** State and exceptions

    [create_pdf] runs against the disk and its local variables [tmp]
    and [tmp_path]; every call may raise. *)

Record tmpfile := {
  name : list Z;       (* tmp.name *)
  ident : nat          (* the file behind the handle *)
}.

Record frame := {
  tmp : option tmpfile;          (* the handle bound by the with statement *)
  tmp_path : option (list Z);
  fs : disk
}.

Inductive outcome (A : Type) :=
| Returned (a : A)
| Raised.
Arguments Returned {A} a.
Arguments Raised {A}.

Definition M (A : Type) : Type := frame -> outcome A * frame.

Definition m_ret {A} (a : A) : M A := fun st => (Returned a, st).
Definition raise {A} : M A := fun st => (Raised, st).

Definition m_bind {A B} (k : A -> M B) (c : M A) : M B :=
  fun st =>
    match c st with
    | (Returned a, st') => k a st'
    | (Raised, st') => (Raised, st')
    end.

#[global] Instance M_ret : MRet M := @m_ret.
#[global] Instance M_bind : MBind M := @m_bind.

(** [try: body finally: handler].  The handler runs on both exits; an
    exception of the body is raised again behind it. *)
Definition try_finally {A} (body : M A) (handler : M unit) : M A :=
  fun st =>
    match body st with
    | (r, st') =>
        match handler st' with
        | (Returned _, st'') => (r, st'')
        | (Raised, st'') => (Raised, st'')
        end
    end.

Definition get_tmp_path : M (option (list Z)) := fun st => (Returned (tmp_path st), st).
Definition set_tmp_path (p : option (list Z)) : M unit :=
  fun st => (Returned tt, {| tmp := tmp st; tmp_path := p; fs := fs st |}).
Definition set_tmp (f : tmpfile) : M unit :=
  fun st => (Returned tt, {| tmp := Some f; tmp_path := tmp_path st; fs := fs st |}).
Definition get_disk : M disk := fun st => (Returned (fs st), st).
Definition on_disk (f : disk -> disk) : M unit :=
  fun st => (Returned tt, {| tmp := tmp st; tmp_path := tmp_path st; fs := f (fs st) |}).

(** A library call that leaves the disk alone. *)
Definition library_call (raises : bool) : M unit :=
  if raises then raise else mret tt.

(** What the libraries do in one run of [create_pdf]. *)
Record oracle := {
  setup_raises : bool;          (* FPDF(...), add_page, title and type badge *)
  tmp_stem : option (list Z);   (* the name tempfile picks, without suffix; None: it raises *)
  save_raises : bool;           (* qr_image.save(tmp_path) *)
  close_raises : bool;          (* leaving the with block *)
  image_raises : bool;          (* pdf.image(...), pdf.ln(...) *)
  unlink_raises : bool;         (* os.unlink(tmp_path) *)
  caption_raises : bool;        (* caption and date lines *)
  output_writes : bool;         (* pdf.output opens output_path *)
  output_raises : bool          (* pdf.output raises *)
}.

(** [tempfile.NamedTemporaryFile(suffix=..., delete=False)]: a new file
    under a name that did not exist, or an exception. *)
Definition NamedTemporaryFile (o : oracle) (suffix : str) : M tmpfile :=
  match tmp_stem o with
  | None => raise
  | Some stem =>
      d ← get_disk;
      if os_path_exists d (stem ++ suffix) then raise
      else
        on_disk (create_file (stem ++ suffix));;
        mret {| name := stem ++ suffix; ident := fresh d |}
  end.

(** [qr_image.save(path)] *)
Definition image_save (o : oracle) (path : str) : M unit :=
  on_disk (write_file path);; library_call (save_raises o).

(** [pdf.output(path)] *)
Definition pdf_output (o : oracle) (path : str) : M unit :=
  (if output_writes o then on_disk (write_file path) else mret tt);;
  library_call (output_raises o).

(** [os.unlink(path)]: the entry is removed, or the call raises and the
    entry stays. *)
Definition unlink (o : oracle) (path : str) : M unit :=
  if unlink_raises o then raise else on_disk (os_unlink path).

(** Truth value of [tmp_path] in [if tmp_path and ...]. *)
Definition truthy (p : option (list Z)) : bool :=
  match p with
  | None => false
  | Some s => negb (str_eqb s [])
  end.

Definition create_pdf (o : oracle) (output_path : str) : M unit :=
  library_call (setup_raises o);;
  set_tmp_path None;;
  try_finally
    (f ← NamedTemporaryFile o (lit ".png");
     set_tmp f;;
     try_finally
       (set_tmp_path (Some (name f));;
        image_save o (name f))
       (library_call (close_raises o));;
     library_call (image_raises o))
    (p ← get_tmp_path;
     d ← get_disk;
     match p with
     | Some path =>
         if truthy p && os_path_exists d path then unlink o path else mret tt
     | None => mret tt
     end);;
  library_call (caption_raises o);;
  pdf_output o output_path.

(** The frame [create_pdf] starts in: its locals unbound. *)
Definition entry (d : disk) : frame := {| tmp := None; tmp_path := None; fs := d |}.

(** The frame behind the [try] statement once the temporary file was
    made: the handle and [tmp_path] are bound. *)
Definition bound (p : list Z) (i : nat) (d : disk) : frame :=
  {| tmp := Some {| name := p; ident := i |}; tmp_path := Some p; fs := d |}.

(** [create_pdf] gets as far as creating its temporary file, under the
    name [p]: the page is set up and [tempfile] hands out a name that
    is not taken. *)
Definition makes_tmp (o : oracle) (d : disk) (p : list Z) : Prop :=
  setup_raises o = false /\
  exists stem, tmp_stem o = Some stem /\ p = stem ++ lit ".png" /\
               os_path_exists d p = false.

(** A call before [pdf.output] raises: setting up the page, creating
    the temporary file (no name, or a name that is taken), saving the
    image, closing the file, placing the image, removing the temporary
    file or writing the caption. *)
Definition fails_before_output (o : oracle) (d : disk) : Prop :=
  setup_raises o = true \/
  match tmp_stem o with
  | None => True
  | Some stem => os_path_exists d (stem ++ lit ".png") = true
  end \/
  save_raises o = true \/ close_raises o = true \/
  image_raises o = true \/ unlink_raises o = true \/ caption_raises o = true.

(** ** Bootstrap and orchestration *)




(** What a run has done besides its outcome: the strings printed, the
    packages handed to pip, the disk it leaves. *)
Record run (A : Type) := {
  result : outcome A;
  stdout : list (list Z);
  pip_log : list (list Z);
  final : disk
}.
Arguments result {A} r.
Arguments stdout {A} r.
Arguments pip_log {A} r.
Arguments final {A} r.











(** A disk that holds one file. *)
Definition small_disk : disk :=
  {| files := {[ lit "/srv/qr/notes.txt" := O ]}; fresh := 1 |}.

(** ** The program over a Unicode database *)

Section Program.

Variable db : unicode_db.

Definition isspace (ch : Z) : bool :=
  if is_ascii ch then ascii_isspace ch else uni_isspace db ch.

Definition isdecimal (ch : Z) : bool :=
  if is_ascii ch then ascii_isdigit ch else uni_isdecimal db ch.

(** [\w]: alphanumeric or underscore. *)
Definition isword (ch : Z) : bool :=
  if is_ascii ch then ascii_isalpha ch || ascii_isdigit ch || (ch =? 95)
  else uni_isalnum db ch.

(** A literal [l] of a pattern compiled with [re.IGNORECASE]. *)
Definition literal_ignorecase (l ch : Z) : bool :=
  if ascii_isalpha l then
    if is_ascii ch then ascii_lower ch =? ascii_lower l else uni_ieq db l ch
  else ch =? l.

Definition upper_char (ch : Z) : str :=
  if is_ascii ch then [ascii_upper ch] else uni_upper db ch.

(** [s.upper()] *)
Definition upper (s : str) : str := flat_map upper_char s.

Fixpoint lower_from (before s : str) : str :=
  match s with
  | [] => []
  | ch :: s' =>
      (if is_ascii ch then [ascii_lower ch] else uni_lower db before ch s')
      ++ lower_from (before ++ [ch]) s'
  end.

(** [s.lower()] *)
Definition lower (s : str) : str := lower_from [] s.

Fixpoint lstrip (s : str) : str :=
  match s with
  | [] => []
  | ch :: s' => if isspace ch then lstrip s' else s
  end.

Definition rstrip (s : str) : str := rev (lstrip (rev s)).

(** [s.strip()] *)
Definition strip (s : str) : str := rstrip (lstrip s).

(** The patterns of the source. *)

Definition ILit (s : string) : regex := Seq (map literal_ignorecase (lit s)).

(* ^https?:// *)
Definition re_http : regex :=
  Cat (ILit "http") (Cat (Opt (Cls (literal_ignorecase (chr "s")))) (ILit "://")).

(* ^www\. *)
Definition re_www : regex := ILit "www.".

(* ^mailto: *)
Definition re_mailto : regex := ILit "mailto:".

(* ^tel: *)
Definition re_tel : regex := ILit "tel:".

(* [^@\s] *)
Definition email_atom (ch : Z) : bool := negb ((ch =? chr "@") || isspace ch).

(* ^[^@\s]+@[^@\s]+\.[^@\s]+$ *)
Definition re_email : regex :=
  Cat (Plus (Cls email_atom))
    (Cat (Cls (Z.eqb (chr "@")))
       (Cat (Plus (Cls email_atom))
          (Cat (Cls (Z.eqb (chr ".")))
             (Plus (Cls email_atom))))).

(* [\d\s\-\(\)] *)
Definition phone_char (ch : Z) : bool :=
  isdecimal ch || isspace ch || (ch =? chr "-") || (ch =? chr "(") || (ch =? chr ")").

(* ^\+?[\d\s\-\(\)]{7,}$ *)
Definition re_phone : regex :=
  Cat (Opt (Cls (Z.eqb (chr "+")))) (AtLeast 7 (Cls phone_char)).

(* [^\w\s\-] *)
Definition unsafe_char (ch : Z) : bool :=
  negb (isword ch || isspace ch || (ch =? chr "-")).

Definition re_unsafe : regex := Cls unsafe_char.

(* \s+ *)
Definition re_spaces : regex := Plus (Cls isspace).

Definition detect_type (content : str) : str :=
  let c := strip content in
  if startswith (lit "WIFI:") (upper c) then lit "wifi"
  else if re_match re_http c then lit "url"
  else if re_match re_www c then lit "url"
  else if re_match re_mailto c then lit "email"
  else if re_match_dollar re_email c then lit "email"
  else if re_match re_tel c then lit "phone"
  else if re_match_dollar re_phone c then lit "phone"
  else lit "text".

Definition format_content (content qr_type : str) : str :=
  let c := strip content in
  if str_eqb qr_type (lit "url") then
    if negb (re_match re_http c) then lit "https://" ++ c else c
  else if str_eqb qr_type (lit "email") then
    if negb (startswith (lit "mailto:") (lower c)) then lit "mailto:" ++ c else c
  else if str_eqb qr_type (lit "phone") then
    if negb (startswith (lit "tel:") (lower c)) then lit "tel:" ++ c else c
  else c.

(** The variable [safe] of [make_filename] when the date is appended. *)
Definition make_filename_safe (label : str) : str :=
  let safe := strip (take 50 (re_sub re_unsafe [] label)) in
  let safe := lower (re_sub re_spaces (lit "-") safe) in
  if str_eqb safe [] then lit "qr-code" else safe.

Definition make_filename (today : date) (label : str) : str :=
  make_filename_safe label ++ lit "_" ++ isoformat today.


(** ** Orchestration *)


(** ** The specification's vocabulary *)

(** No white space at either end. *)
Definition stripped (s : str) : Prop :=
  (forall ch t, s = ch :: t -> isspace ch = false) /\
  (forall ch t, rev s = ch :: t -> isspace ch = false).

(** [c] starts with [p], the case of letters ignored as [re.IGNORECASE]
    does. *)
Definition iprefix (p : string) (c : str) : Prop :=
  exists h t, c = h ++ t /\
    Forall2 (fun l ch => literal_ignorecase l ch = true) (lit p) h.

(** [c] starts with [p] up to the case of its ASCII letters. *)
Definition any_case_prefix (p : string) (c : str) : Prop :=
  exists h t, c = h ++ t /\
    Forall2 (fun l ch => ascii_lower ch = ascii_lower l) (lit p) h.

(** The upper-cased string starts with [WIFI:]. *)
Definition wifi_prefix (c : str) : Prop :=
  startswith (lit "WIFI:") (upper c) = true.

(** The lower-cased string starts with [p]. *)
Definition lower_prefix (p : string) (c : str) : Prop :=
  startswith (lit p) (lower c) = true.

Definition atom_char (ch : Z) : Prop := ch <> chr "@" /\ isspace ch = false.

(** [local@domain.tld]: one at sign, a dot inside what follows it, no
    white space. *)
Definition email_shape (c : str) : Prop :=
  exists l d t,
    c = l ++ chr "@" :: d ++ chr "." :: t /\
    l <> [] /\ d <> [] /\ t <> [] /\
    Forall atom_char l /\ Forall atom_char d /\ Forall atom_char t.

Definition phone_symbol (ch : Z) : Prop :=
  isdecimal ch = true \/ isspace ch = true \/
  ch = chr "-" \/ ch = chr "(" \/ ch = chr ")".

(** An optional plus sign, then seven or more phone symbols. *)
Definition phone_shape (c : str) : Prop :=
  exists body,
    (c = body \/ c = chr "+" :: body) /\
    (7 <= length body)%nat /\ Forall phone_symbol body.

(** The checks of the classifier, in order, each with its verdict. *)
Definition rules (c : str) : list (Prop * str) :=
  [ (wifi_prefix c, lit "wifi");
    (iprefix "http://" c \/ iprefix "https://" c \/ iprefix "www." c, lit "url");
    (iprefix "mailto:" c, lit "email");
    (email_shape c, lit "email");
    (iprefix "tel:" c, lit "phone");
    (phone_shape c, lit "phone") ].

(** First match wins: [out] is the verdict of the first rule that
    holds, and [otherwise] when none does. *)
Fixpoint first_match (rs : list (Prop * str)) (otherwise out : str) : Prop :=
  match rs with
  | [] => out = otherwise
  | (P, verdict) :: rs' =>
      (P /\ out = verdict) \/ (~ P /\ first_match rs' otherwise out)
  end.

Definition classify (c out : str) : Prop :=
  first_match (rules c) (lit "text") out.

(** The prefix logic of the normaliser on a string. *)
Definition add_prefix (c qr_type : str) : str :=
  if str_eqb qr_type (lit "url") then
    if re_match re_http c then c else lit "https://" ++ c
  else if str_eqb qr_type (lit "email") then
    if startswith (lit "mailto:") (lower c) then c else lit "mailto:" ++ c
  else if str_eqb qr_type (lit "phone") then
    if startswith (lit "tel:") (lower c) then c else lit "tel:" ++ c
  else c.

(** The reference pipeline of the file-name slug. *)

Definition keep_char (ch : Z) : bool := isword ch || isspace ch || (ch =? chr "-").

(** Every run of white space becomes one hyphen; [in_run] tells that
    the previous character was white space. *)
Fixpoint collapse (in_run : bool) (s : str) : str :=
  match s with
  | [] => []
  | ch :: s' =>
      if isspace ch then
        if in_run then collapse true s' else chr "-" :: collapse true s'
      else ch :: collapse false s'
  end.

(** The slug before lower-casing. *)
Definition slug_cased (label : str) : str :=
  collapse false (strip (take 50 (List.filter keep_char label))).

Definition word_or_hyphen (ch : Z) : Prop := isword ch = true \/ ch = chr "-".

(** The length of the run of white space [s] starts with. *)
Fixpoint space_run (s : str) : nat :=
  match s with
  | [] => O
  | ch :: s' => if isspace ch then S (space_run s') else O
  end.

Definition slug (label : str) : str :=
  match lower (slug_cased label) with
  | [] => lit "qr-code"
  | s => s
  end.

(** A lower-case ASCII word character or a hyphen. *)
Definition slug_char (ch : Z) : bool :=
  ascii_islower ch || ascii_isdigit ch || (ch =? chr "_") || (ch =? chr "-").

(** The stems [base_name], [base_name-2], [base_name-3], ... *)
Definition stem (base_name : str) (j : nat) : str :=
  match j with
  | O => base_name
  | S i => base_name ++ lit "-" ++ str_of_nat (i + 2)
  end.

Definition candidate (archive_dir base_name : str) (j : nat) : str * str :=
  (os_path_join archive_dir (stem base_name j ++ lit ".png"),
   os_path_join archive_dir (stem base_name j ++ lit ".pdf")).

(** The path that blocks a candidate: one of the pair that exists. *)
Definition blocker (d : disk) (pp : list Z * list Z) : list Z :=
  if os_path_exists d (fst pp) then fst pp else snd pp.

(** Both paths of the pair are absent. *)
Definition free (d : disk) (pp : str * str) : Prop :=
  os_path_exists d (fst pp) = false /\ os_path_exists d (snd pp) = false.

(** ** Further vocabulary *)

(** The chain of checks of [detect_type] on the stripped content. *)
Definition verdict (c : str) : str :=
  if startswith (lit "WIFI:") (upper c) then lit "wifi"
  else if re_match re_http c then lit "url"
  else if re_match re_www c then lit "url"
  else if re_match re_mailto c then lit "email"
  else if re_match_dollar re_email c then lit "email"
  else if re_match re_tel c then lit "phone"
  else if re_match_dollar re_phone c then lit "phone"
  else lit "text".

(** What an ASCII telephone number can start with: a plus sign, a
    digit, a hyphen or a parenthesis. *)
Definition phone_head (f : Z) : Prop :=
  f = 43 \/ 48 <= f <= 57 \/ f = 45 \/ f = 40 \/ f = 41.

(** The scheme prefixes [format_content] may put in front. *)
Definition schemes : list str := [ []; lit "https://"; lit "mailto:"; lit "tel:" ].

(** * Lemmas *)

(** ** Boolean arithmetic on code points *)

Ltac zbool :=
  repeat match goal with
  | H : context [?a <=? ?b] |- _ => destruct (Z.leb_spec a b)
  | H : context [?a <? ?b] |- _ => destruct (Z.ltb_spec a b)
  | H : context [?a =? ?b] |- _ => destruct (Z.eqb_spec a b)
  | |- context [?a <=? ?b] => destruct (Z.leb_spec a b)
  | |- context [?a <? ?b] => destruct (Z.ltb_spec a b)
  | |- context [?a =? ?b] => destruct (Z.eqb_spec a b)
  end.

Ltac unfold_ascii :=
  unfold is_ascii, ascii_isspace, ascii_isalpha, ascii_isdigit, ascii_upper,
    ascii_lower, ascii_isupper, ascii_islower, in_range in *.

Lemma str_eqb_eq a b : str_eqb a b = true <-> a = b.
Proof.
  revert b; induction a as [|x a IH]; intros [|y b]; simpl; try (split; congruence).
  rewrite andb_true_iff, Z.eqb_eq, IH. split.
  - intros [-> ->]; reflexivity.
  - intros [= -> ->]; split; reflexivity.
Qed.

Lemma str_eqb_refl a : str_eqb a a = true.
Proof. apply str_eqb_eq; reflexivity. Qed.

Lemma startswith_app p s : startswith p (p ++ s) = true.
Proof. induction p as [|x p IH]; simpl; [reflexivity|]. rewrite Z.eqb_refl; exact IH. Qed.

Lemma startswith_prefix p s : startswith p s = true <-> exists t, s = p ++ t.
Proof.
  revert s; induction p as [|x p IH]; intros s; simpl.
  - split; [intros _; exists s; reflexivity | reflexivity].
  - destruct s as [|y s]; [split; [discriminate | intros [t Ht]; discriminate]|].
    rewrite andb_true_iff, Z.eqb_eq, IH. split.
    + intros [-> [t ->]]; exists t; reflexivity.
    + intros [t [= -> ->]]; split; [reflexivity | exists t; reflexivity].
Qed.

(** ** Patterns and the strings they denote *)

Lemma matches_cat_inv r1 r2 s :
  matches (Cat r1 r2) s -> exists s1 s2, s = s1 ++ s2 /\ matches r1 s1 /\ matches r2 s2.
Proof. inversion 1; subst; eauto. Qed.

Lemma matches_alt_inv r1 r2 s : matches (Alt r1 r2) s -> matches r1 s \/ matches r2 s.
Proof. inversion 1; subst; auto. Qed.

Lemma matches_cls_inv p s : matches (Cls p) s -> exists ch, s = [ch] /\ p ch = true.
Proof. inversion 1; subst; eauto. Qed.

Lemma matches_eps_inv s : matches Eps s -> s = [].
Proof. inversion 1; reflexivity. Qed.

Lemma matches_void_inv s : ~ matches Void s.
Proof. inversion 1. Qed.

Lemma nullable_matches r : nullable r = true <-> matches r [].
Proof.
  induction r as [| |p|r1 IH1 r2 IH2|r1 IH1 r2 IH2|r IH]; simpl.
  - split; [discriminate | intros H; destruct (matches_void_inv _ H)].
  - split; [intros _; constructor | reflexivity].
  - split; [discriminate | intros H; apply matches_cls_inv in H as (ch & [=] & _)].
  - rewrite andb_true_iff, IH1, IH2. split.
    + intros [H1 H2]. change (@nil Z) with (@nil Z ++ []). constructor; assumption.
    + intros H. apply matches_cat_inv in H as (s1 & s2 & E & H1 & H2).
      symmetry in E. apply app_eq_nil in E as [-> ->]. auto.
  - rewrite orb_true_iff, IH1, IH2. split.
    + intros [H|H]; [apply m_alt_l | apply m_alt_r]; assumption.
    + apply matches_alt_inv.
  - split; [intros _; constructor | reflexivity].
Qed.

(** A non-empty match of a repetition starts with a non-empty round. *)
Lemma matches_star_cons_inv r ch s :
  matches (Star r) (ch :: s) ->
  exists s1 s2, s = s1 ++ s2 /\ matches r (ch :: s1) /\ matches (Star r) s2.
Proof.
  intros H. remember (Star r) as r' eqn:Er. remember (ch :: s) as w eqn:Ew.
  revert r ch s Er Ew.
  induction H as [ | | | | | |r0 s1 s2 H1 _ H2 IH2]; intros r' c' s' Er Ew; try discriminate.
  injection Er as ->.
  destruct s1 as [|c1 s1].
  - simpl in Ew. apply (IH2 r' c' s' eq_refl Ew).
  - simpl in Ew. injection Ew as -> <-. exists s1, s2. auto.
Qed.

Lemma deriv_matches ch r s : matches (deriv ch r) s <-> matches r (ch :: s).
Proof.
  revert s. induction r as [| |p|r1 IH1 r2 IH2|r1 IH1 r2 IH2|r IH]; intros s; simpl.
  - split; intros H; destruct (matches_void_inv _ H).
  - split; intros H; [destruct (matches_void_inv _ H) | apply matches_eps_inv in H; discriminate].
  - destruct (p ch) eqn:Ep; split; intros H.
    + apply matches_eps_inv in H as ->. constructor; assumption.
    + apply matches_cls_inv in H as (c & [= -> ->] & _). constructor.
    + destruct (matches_void_inv _ H).
    + apply matches_cls_inv in H as (c & [= -> ->] & Hc). congruence.
  - assert (Hcat : matches (Cat (deriv ch r1) r2) s ->
                   matches (Cat r1 r2) (ch :: s)).
    { intros H. apply matches_cat_inv in H as (s1 & s2 & -> & H1 & H2).
      apply IH1 in H1. change (ch :: s1 ++ s2) with ((ch :: s1) ++ s2).
      constructor; assumption. }
    assert (Hinv : matches (Cat r1 r2) (ch :: s) ->
                   matches (Cat (deriv ch r1) r2) s \/
                   (matches r1 [] /\ matches r2 (ch :: s))).
    { intros H. apply matches_cat_inv in H as (s1 & s2 & E & H1 & H2).
      destruct s1 as [|c1 s1]; simpl in E.
      - right. subst s2. auto.
      - injection E as <- ->. left. constructor; [apply IH1|]; assumption. }
    destruct (nullable r1) eqn:En; split; intros H.
    + apply matches_alt_inv in H as [H|H]; [auto|].
      apply IH2 in H. apply nullable_matches in En.
      change (ch :: s) with ([] ++ ch :: s). constructor; assumption.
    + destruct (Hinv H) as [H'|[_ H']]; [apply m_alt_l | apply m_alt_r; apply IH2]; assumption.
    + auto.
    + destruct (Hinv H) as [H'|[H' _]]; [assumption|].
      apply nullable_matches in H'. congruence.
  - split; intros H.
    + apply matches_alt_inv in H as [H|H]; [apply m_alt_l, IH1 | apply m_alt_r, IH2]; assumption.
    + apply matches_alt_inv in H as [H|H]; [apply m_alt_l, IH1 | apply m_alt_r, IH2]; assumption.
  - split; intros H.
    + apply matches_cat_inv in H as (s1 & s2 & -> & H1 & H2).
      apply IH in H1. change (ch :: s1 ++ s2) with ((ch :: s1) ++ s2).
      constructor; assumption.
    + apply matches_star_cons_inv in H as (s1 & s2 & -> & H1 & H2).
      constructor; [apply IH|]; assumption.
Qed.

Lemma fullmatch_matches r s : fullmatch r s = true <-> matches r s.
Proof.
  revert r; induction s as [|ch s IH]; intros r; simpl.
  - apply nullable_matches.
  - rewrite IH. apply deriv_matches.
Qed.

Lemma re_match_matches r s :
  re_match r s = true <-> exists h t, s = h ++ t /\ matches r h.
Proof.
  revert r; induction s as [|ch s IH]; intros r; simpl.
  - rewrite orb_false_r, nullable_matches. split.
    + intros H; exists [], []; auto.
    + intros (h & t & E & H). symmetry in E. apply app_eq_nil in E as [-> _]. exact H.
  - rewrite orb_true_iff, nullable_matches, IH. split.
    + intros [H|(h & t & -> & H)].
      * exists [], (ch :: s); auto.
      * exists (ch :: h), t. split; [reflexivity | apply deriv_matches; exact H].
    + intros (h & t & E & H). destruct h as [|c h]; [left; exact H|].
      simpl in E. injection E as <- ->. right. exists h, t.
      split; [reflexivity | apply deriv_matches; exact H].
Qed.

Lemma bool_eq_iff (a b : bool) : (a = true <-> b = true) -> a = b.
Proof. destruct a, b; intuition congruence. Qed.

(** Patterns with the same strings are matched alike. *)
Lemma longest_ext r1 r2 s :
  (forall w, matches r1 w <-> matches r2 w) -> longest r1 s = longest r2 s.
Proof.
  revert r1 r2; induction s as [|ch s IH]; intros r1 r2 E; simpl.
  - rewrite (bool_eq_iff (nullable r1) (nullable r2)); [reflexivity|].
    rewrite !nullable_matches. apply E.
  - rewrite (IH (deriv ch r1) (deriv ch r2)).
    + rewrite (bool_eq_iff (nullable r1) (nullable r2)); [reflexivity|].
      rewrite !nullable_matches. apply E.
    + intros w. rewrite !deriv_matches. apply E.
Qed.

Lemma longest_void s : longest Void s = None.
Proof. induction s as [|ch s IH]; simpl; [|rewrite IH]; reflexivity. Qed.

Lemma longest_eps s : longest Eps s = Some O.
Proof. destruct s; simpl; [|rewrite longest_void]; reflexivity. Qed.

Lemma matches_star_cls p s : matches (Star (Cls p)) s <-> Forall (fun ch => p ch = true) s.
Proof.
  split.
  - induction s as [|ch s IH]; intros H; [constructor|].
    apply matches_star_cons_inv in H as (s1 & s2 & -> & H1 & H2).
    apply matches_cls_inv in H1 as (c & [= -> ->] & Hc).
    constructor; [exact Hc | apply IH; exact H2].
  - induction 1 as [|ch s Hc _ IH]; [constructor|].
    change (ch :: s) with ([ch] ++ s). constructor; [constructor|]; assumption.
Qed.

Lemma matches_plus_cls p s :
  matches (Plus (Cls p)) s <-> s <> [] /\ Forall (fun ch => p ch = true) s.
Proof.
  unfold Plus. split.
  - intros H. apply matches_cat_inv in H as (s1 & s2 & -> & H1 & H2).
    apply matches_cls_inv in H1 as (c & -> & Hc). split; [discriminate|].
    constructor; [exact Hc | apply matches_star_cls; exact H2].
  - intros [Hne H]. destruct s as [|ch s]; [congruence|].
    inversion H; subst. change (ch :: s) with ([ch] ++ s).
    constructor; [constructor; assumption | apply matches_star_cls; assumption].
Qed.

Lemma matches_atleast_cls n p s :
  matches (AtLeast n (Cls p)) s <->
  (n <= length s)%nat /\ Forall (fun ch => p ch = true) s.
Proof.
  revert s; induction n as [|n IH]; intros s; simpl.
  - rewrite matches_star_cls. split; [intros H; split; [lia | exact H] | intros [_ H]; exact H].
  - split.
    + intros H. apply matches_cat_inv in H as (s1 & s2 & -> & H1 & H2).
      apply matches_cls_inv in H1 as (c & -> & Hc). apply IH in H2 as [Hl Hf].
      simpl. split; [lia | constructor; assumption].
    + intros [Hl Hf]. destruct s as [|ch s]; [simpl in Hl; lia|].
      inversion Hf; subst. simpl in Hl. change (ch :: s) with ([ch] ++ s).
      constructor; [constructor; assumption | apply IH; split; [lia | assumption]].
Qed.

Lemma matches_seq ps s :
  matches (Seq ps) s <-> Forall2 (fun (p : Z -> bool) ch => p ch = true) ps s.
Proof.
  revert s; induction ps as [|p ps IH]; intros s; simpl.
  - split; [intros H; apply matches_eps_inv in H as ->; constructor|].
    intros H; inversion H; constructor.
  - split.
    + intros H. apply matches_cat_inv in H as (s1 & s2 & -> & H1 & H2).
      apply matches_cls_inv in H1 as (c & -> & Hc). constructor; [exact Hc | apply IH; exact H2].
    + intros H. inversion H as [|? ch ? s' Hc Hs]; subst.
      change (ch :: s') with ([ch] ++ s'). constructor; [constructor; exact Hc | apply IH; exact Hs].
Qed.

Lemma matches_opt r s : matches (Opt r) s <-> matches r s \/ s = [].
Proof.
  unfold Opt. split.
  - intros H. apply matches_alt_inv in H as [H|H]; [left; exact H|].
    right. apply matches_eps_inv; exact H.
  - intros [H| ->]; [apply m_alt_l; exact H | apply m_alt_r; constructor].
Qed.


(** ** Stripping *)

Lemma lstrip_head s ch t : lstrip s = ch :: t -> isspace ch = false.
Proof.
  induction s as [|c s IH]; simpl; [discriminate|].
  destruct (isspace c) eqn:Ec; [exact IH|].
  intros [= <- _]. exact Ec.
Qed.

Lemma lstrip_split s :
  exists ws, s = ws ++ lstrip s /\ Forall (fun ch => isspace ch = true) ws.
Proof.
  induction s as [|c s (ws & E & Hws)]; simpl.
  - exists []. split; [reflexivity | constructor].
  - destruct (isspace c) eqn:Ec.
    + exists (c :: ws). split; [simpl; congruence | constructor; assumption].
    + exists []. split; [reflexivity | constructor].
Qed.

Lemma lstrip_id s :
  (forall ch t, s = ch :: t -> isspace ch = false) -> lstrip s = s.
Proof.
  destruct s as [|c s]; [reflexivity|]. intros H. simpl.
  rewrite (H c s eq_refl). reflexivity.
Qed.

Lemma lstrip_spaces s : Forall (fun ch => isspace ch = true) s -> lstrip s = [].
Proof. induction 1 as [|c s Hc _ IH]; simpl; [|rewrite Hc]; auto. Qed.

Lemma lstrip_app a ch b :
  isspace ch = false -> lstrip (a ++ ch :: b) = lstrip a ++ ch :: b.
Proof.
  intros Hc. induction a as [|c a IH]; simpl.
  - rewrite Hc. reflexivity.
  - destruct (isspace c); [exact IH | reflexivity].
Qed.

Lemma rstrip_split s :
  exists ws, s = rstrip s ++ ws /\ Forall (fun ch => isspace ch = true) ws.
Proof.
  unfold rstrip. destruct (lstrip_split (rev s)) as (ws & E & Hws).
  exists (rev ws). split.
  - rewrite <- rev_app_distr, <- E, rev_involutive. reflexivity.
  - apply Forall_rev. exact Hws.
Qed.

Lemma strip_split s :
  exists ws1 ws2, s = ws1 ++ strip s ++ ws2 /\
    Forall (fun ch => isspace ch = true) ws1 /\
    Forall (fun ch => isspace ch = true) ws2.
Proof.
  unfold strip. destruct (lstrip_split s) as (ws1 & E1 & H1).
  destruct (rstrip_split (lstrip s)) as (ws2 & E2 & H2).
  exists ws1, ws2. split; [|split; assumption].
  rewrite <- E2. exact E1.
Qed.

Lemma strip_stripped s : stripped (strip s).
Proof.
  unfold stripped, strip, rstrip. split.
  - intros ch t E.
    destruct (lstrip_split (rev (lstrip s))) as (ws & Ews & _).
    apply (f_equal (@rev Z)) in Ews. rewrite rev_involutive, rev_app_distr in Ews.
    rewrite E in Ews. simpl in Ews. apply (lstrip_head s ch (t ++ rev ws)). exact Ews.
  - intros ch t E. rewrite rev_involutive in E. apply (lstrip_head _ _ _ E).
Qed.

Lemma stripped_strip s : stripped s -> strip s = s.
Proof.
  intros [Hl Hr]. unfold strip, rstrip.
  rewrite (lstrip_id s Hl), (lstrip_id (rev s) Hr). apply rev_involutive.
Qed.

Lemma strip_idempotent s : strip (strip s) = strip s.
Proof. apply stripped_strip, strip_stripped. Qed.

Lemma strip_spaces s : Forall (fun ch => isspace ch = true) s -> strip s = [].
Proof. intros H. unfold strip. rewrite (lstrip_spaces s H). reflexivity. Qed.

Lemma stripped_nil : stripped [].
Proof. split; intros ch t E; discriminate. Qed.

Lemma strip_length s : (length (strip s) <= length s)%nat.
Proof.
  destruct (strip_split s) as (ws1 & ws2 & E & _).
  rewrite E at 2. rewrite !length_app. lia.
Qed.

Lemma strip_Forall (P : Z -> Prop) s : Forall P s -> Forall P (strip s).
Proof.
  intros H. destruct (strip_split s) as (ws1 & ws2 & E & _).
  rewrite E in H. apply Forall_app in H as [_ H]. apply Forall_app in H as [H _]. exact H.
Qed.

(** Stripping keeps a prefix that ends in a character other than white
    space. *)
Lemma strip_keeps_prefix h c0 t :
  stripped (h ++ [c0]) -> strip (h ++ c0 :: t) = h ++ c0 :: rstrip t.
Proof.
  intros [Hl Hr]. unfold strip.
  assert (Hc0 : isspace c0 = false).
  { apply (Hr c0 (rev h)). rewrite rev_app_distr. reflexivity. }
  rewrite lstrip_id.
  - unfold rstrip. rewrite rev_app_distr. simpl. rewrite <- app_assoc. simpl.
    rewrite lstrip_app by exact Hc0.
    rewrite rev_app_distr. simpl. rewrite rev_involutive.
    rewrite <- app_assoc. reflexivity.
  - intros ch t' E. destruct h as [|x h]; simpl in E.
    + injection E as <- _. exact Hc0.
    + injection E as <- _. apply (Hl x (h ++ [c0])). reflexivity.
Qed.

(** A stripped string stays stripped behind a prefix that starts with
    a character other than white space and ends in one. *)
Lemma stripped_app p c :
  p <> [] -> stripped p -> stripped c -> stripped (p ++ c).
Proof.
  intros Hne [Hpl Hpr] [Hcl Hcr]. split.
  - intros ch t E. destruct p as [|x p]; [congruence|].
    simpl in E. injection E as <- _. apply (Hpl x p). reflexivity.
  - intros ch t E. rewrite rev_app_distr in E.
    destruct (rev c) as [|y rc] eqn:Erc.
    + simpl in E. apply (Hpr ch t). exact E.
    + simpl in E. injection E as <- _. apply (Hcr y rc). reflexivity.
Qed.


(** ** The patterns of the classifier *)

Lemma Forall2_map_pred (ps : list Z) (f : Z -> Z -> bool) s :
  Forall2 (fun (p : Z -> bool) ch => p ch = true) (map f ps) s <->
  Forall2 (fun l ch => f l ch = true) ps s.
Proof.
  revert s; induction ps as [|l ps IH]; intros s; simpl.
  - split; intros H; inversion H; constructor.
  - split; intros H; inversion H; subst; constructor; try assumption; apply IH; assumption.
Qed.

Lemma matches_ilit p h :
  matches (ILit p) h <-> Forall2 (fun l ch => literal_ignorecase l ch = true) (lit p) h.
Proof. unfold ILit. rewrite matches_seq. apply Forall2_map_pred. Qed.

Lemma re_match_ilit p c : re_match (ILit p) c = true <-> iprefix p c.
Proof.
  rewrite re_match_matches. unfold iprefix.
  split; intros (h & t & E & H); exists h, t; (split; [exact E|]); apply matches_ilit; exact H.
Qed.

Lemma matches_http h :
  matches re_http h <->
  Forall2 (fun l ch => literal_ignorecase l ch = true) (lit "http://") h \/
  Forall2 (fun l ch => literal_ignorecase l ch = true) (lit "https://") h.
Proof.
  unfold re_http. split.
  - intros H. apply matches_cat_inv in H as (s1 & s23 & -> & H1 & H).
    apply matches_cat_inv in H as (s2 & s3 & -> & H2 & H3).
    apply matches_ilit in H1. apply matches_ilit in H3.
    apply matches_opt in H2 as [H2| ->].
    + right. apply matches_cls_inv in H2 as (ch & -> & Hch).
      change (lit "https://") with (lit "http" ++ [chr "s"] ++ lit "://").
      apply Forall2_app; [exact H1|]. apply Forall2_app; [|exact H3].
      constructor; [exact Hch | constructor].
    + left. change (lit "http://") with (lit "http" ++ lit "://").
      apply Forall2_app; assumption.
  - intros [H|H].
    + change (lit "http://") with (lit "http" ++ lit "://") in H.
      apply Forall2_app_inv_l in H as (s1 & s3 & H1 & H3 & ->).
      constructor; [apply matches_ilit; exact H1|].
      change s3 with ([] ++ s3). constructor; [apply matches_opt; right; reflexivity|].
      apply matches_ilit; exact H3.
    + change (lit "https://") with (lit "http" ++ [chr "s"] ++ lit "://") in H.
      apply Forall2_app_inv_l in H as (s1 & s23 & H1 & H & ->).
      apply Forall2_app_inv_l in H as (s2 & s3 & H2 & H3 & ->).
      constructor; [apply matches_ilit; exact H1|].
      constructor; [|apply matches_ilit; exact H3].
      apply matches_opt; left. inversion H2 as [|? ch ? ? Hch Hnil]; subst.
      inversion Hnil; subst. constructor; exact Hch.
Qed.

Lemma re_match_http c :
  re_match re_http c = true <-> iprefix "http://" c \/ iprefix "https://" c.
Proof.
  rewrite re_match_matches. unfold iprefix. split.
  - intros (h & t & E & H). apply matches_http in H as [H|H]; [left | right]; eauto.
  - intros [(h & t & E & H)|(h & t & E & H)]; exists h, t; (split; [exact E|]);
      apply matches_http; auto.
Qed.

Lemma email_atom_spec ch : email_atom ch = true <-> atom_char ch.
Proof.
  unfold email_atom, atom_char. rewrite negb_true_iff, orb_false_iff, Z.eqb_neq.
  reflexivity.
Qed.

Lemma Forall_email_atom s :
  Forall (fun ch => email_atom ch = true) s <-> Forall atom_char s.
Proof.
  split; intros H; (eapply Forall_impl; [exact H|]); intros ch; apply email_atom_spec.
Qed.

Lemma atoms_check s : forallb email_atom s = true -> Forall atom_char s.
Proof.
  intros H. apply Forall_email_atom, List.Forall_forall.
  apply forallb_forall. exact H.
Qed.

Lemma fullmatch_email c : fullmatch re_email c = true <-> email_shape c.
Proof.
  rewrite fullmatch_matches. unfold re_email, email_shape. split.
  - intros H. apply matches_cat_inv in H as (l & s & -> & Hl & H).
    apply matches_cat_inv in H as (a & s' & -> & Ha & H).
    apply matches_cat_inv in H as (d & s & -> & Hd & H).
    apply matches_cat_inv in H as (b & t & -> & Hb & Ht).
    apply matches_cls_inv in Ha as (x & -> & Hx). apply Z.eqb_eq in Hx as <-.
    apply matches_cls_inv in Hb as (y & -> & Hy). apply Z.eqb_eq in Hy as <-.
    apply matches_plus_cls in Hl as [Hl1 Hl2].
    apply matches_plus_cls in Hd as [Hd1 Hd2].
    apply matches_plus_cls in Ht as [Ht1 Ht2].
    exists l, d, t. rewrite <- !Forall_email_atom. auto 10.
  - intros (l & d & t & -> & Hl & Hd & Ht & Fl & Fd & Ft).
    rewrite <- Forall_email_atom in Fl, Fd, Ft.
    constructor; [apply matches_plus_cls; auto|].
    change (chr "@" :: d ++ chr "." :: t) with ([chr "@"] ++ d ++ [chr "."] ++ t).
    constructor; [constructor; apply Z.eqb_refl|].
    constructor; [apply matches_plus_cls; auto|].
    constructor; [constructor; apply Z.eqb_refl|].
    apply matches_plus_cls; auto.
Qed.

Lemma phone_char_spec ch : phone_char ch = true <-> phone_symbol ch.
Proof.
  unfold phone_char, phone_symbol. rewrite !orb_true_iff, !Z.eqb_eq. tauto.
Qed.

Lemma Forall_phone_char s :
  Forall (fun ch => phone_char ch = true) s <-> Forall phone_symbol s.
Proof.
  split; intros H; (eapply Forall_impl; [exact H|]); intros ch; apply phone_char_spec.
Qed.

Lemma fullmatch_phone c : fullmatch re_phone c = true <-> phone_shape c.
Proof.
  rewrite fullmatch_matches. unfold re_phone, phone_shape. split.
  - intros H. apply matches_cat_inv in H as (s & body & -> & Hs & Hb).
    apply matches_atleast_cls in Hb as [Hlen Hb]. apply Forall_phone_char in Hb.
    exists body. split; [|auto]. apply matches_opt in Hs as [Hs| ->]; [right | left; reflexivity].
    apply matches_cls_inv in Hs as (x & -> & Hx). apply Z.eqb_eq in Hx as <-. reflexivity.
  - intros (body & E & Hlen & Hb). apply Forall_phone_char in Hb.
    assert (Hm : matches (AtLeast 7 (Cls phone_char)) body)
      by (apply matches_atleast_cls; auto).
    destruct E as [-> | ->].
    + change body with ([] ++ body). constructor; [apply matches_opt; right; reflexivity | exact Hm].
    + change (chr "+" :: body) with ([chr "+"] ++ body).
      constructor; [|exact Hm]. apply matches_opt; left. constructor. apply Z.eqb_refl.
Qed.

Lemma isspace_newline : isspace 10 = true.
Proof. reflexivity. Qed.

(** On a stripped string [$] holds at the end only. *)
Lemma re_match_dollar_stripped r c :
  stripped c -> re_match_dollar r c = fullmatch r c.
Proof.
  intros [_ Hr]. unfold re_match_dollar.
  destruct (rev c) as [|ch rc] eqn:E; [apply orb_false_r|].
  specialize (Hr ch rc eq_refl).
  destruct (Z.eq_dec ch 10) as [-> | Hne].
  - rewrite isspace_newline in Hr. discriminate.
  - replace (match ch with 10 => fullmatch r (rev rc) | _ => false end) with false.
    + apply orb_false_r.
    + destruct ch as [|p|p]; try reflexivity.
      do 4 (destruct p as [p|p|]; try reflexivity). congruence.
Qed.

(** ** First match wins *)

Lemma first_match_functional rs otherwise o1 o2 :
  first_match rs otherwise o1 -> first_match rs otherwise o2 -> o1 = o2.
Proof.
  induction rs as [|[P v] rs IH]; simpl.
  - congruence.
  - intros [[H1 ->]|[N1 F1]] [[H2 ->]|[N2 F2]]; try tauto; auto.
Qed.

Lemma first_match_In rs otherwise out :
  first_match rs otherwise out -> out = otherwise \/ In out (map snd rs).
Proof.
  induction rs as [|[P v] rs IH]; simpl; [auto|].
  intros [[_ ->]|[_ H]]; [auto|]. destruct (IH H); auto.
Qed.

(** A rule decided by a boolean test. *)
Lemma first_match_step (b : bool) (P : Prop) v rs otherwise (x y : str) :
  (b = true <-> P) ->
  (b = true -> x = v) ->
  (b = false -> first_match rs otherwise y) ->
  first_match ((P, v) :: rs) otherwise (if b then x else y).
Proof.
  intros HP Hx Hy. simpl. destruct b.
  - left. split; [apply HP; reflexivity | apply Hx; reflexivity].
  - right. split; [|apply Hy; reflexivity]. intros HPn. apply HP in HPn. discriminate.
Qed.

Lemma classify_detect_type content : classify (strip content) (detect_type content).
Proof.
  unfold classify, rules, detect_type, wifi_prefix.
  pose proof (strip_stripped content) as Hs.
  set (c := strip content) in *.
  apply first_match_step; [reflexivity | reflexivity | intros _].
  assert (Hurl : forall (x y : str),
    (re_match re_http c = false -> re_match re_www c = false ->
       first_match
         [(iprefix "mailto:" c, lit "email"); (email_shape c, lit "email");
          (iprefix "tel:" c, lit "phone"); (phone_shape c, lit "phone")]
         (lit "text") y) ->
    first_match
      ((iprefix "http://" c \/ iprefix "https://" c \/ iprefix "www." c, lit "url")
       :: [(iprefix "mailto:" c, lit "email"); (email_shape c, lit "email");
           (iprefix "tel:" c, lit "phone"); (phone_shape c, lit "phone")])
      (lit "text")
      (if re_match re_http c then lit "url" else if re_match re_www c then lit "url" else y)).
  { intros x y Hy. simpl.
    destruct (re_match re_http c) eqn:E1.
    - left. split; [|reflexivity]. apply re_match_http in E1. tauto.
    - destruct (re_match re_www c) eqn:E2.
      + left. split; [|reflexivity]. apply re_match_ilit in E2. tauto.
      + right. split; [|apply Hy; reflexivity].
        intros [H|[H|H]].
        * assert (re_match re_http c = true) by (apply re_match_http; auto). congruence.
        * assert (re_match re_http c = true) by (apply re_match_http; auto). congruence.
        * apply re_match_ilit in H. unfold re_www in E2. congruence. }
  apply (Hurl []). intros _ _.
  apply first_match_step; [apply re_match_ilit | reflexivity | intros _].
  apply first_match_step;
    [rewrite (re_match_dollar_stripped _ _ Hs); apply fullmatch_email | reflexivity | intros _].
  apply first_match_step; [apply re_match_ilit | reflexivity | intros _].
  apply first_match_step;
    [rewrite (re_match_dollar_stripped _ _ Hs); apply fullmatch_phone | reflexivity | intros _].
  reflexivity.
Qed.


(** ** Literals *)

Ltac eval_lits :=
  repeat match goal with
  | |- context [lit ?s] =>
      let v := eval vm_compute in (lit s) in change (lit s) with v
  | H : context [lit ?s] |- _ =>
      let v := eval vm_compute in (lit s) in change (lit s) with v in H
  | |- context [chr ?a] =>
      let v := eval vm_compute in (chr a) in change (chr a) with v
  | H : context [chr ?a] |- _ =>
      let v := eval vm_compute in (chr a) in change (chr a) with v in H
  end.

(** A literal that neither starts nor ends with white space. *)
Ltac stripped_literal :=
  split; intros ch t E; vm_compute in E; injection E as <- _; reflexivity.

Lemma stripped_https : stripped (lit "https://").
Proof. stripped_literal. Qed.

Lemma stripped_mailto : stripped (lit "mailto:").
Proof. stripped_literal. Qed.

Lemma stripped_tel : stripped (lit "tel:").
Proof. stripped_literal. Qed.

Lemma lower_mailto s : startswith (lit "mailto:") (lower (lit "mailto:" ++ s)) = true.
Proof. reflexivity. Qed.

Lemma lower_tel s : startswith (lit "tel:") (lower (lit "tel:" ++ s)) = true.
Proof. reflexivity. Qed.

Lemma re_match_https s : re_match re_http (lit "https://" ++ s) = true.
Proof.
  apply re_match_http. right. exists (lit "https://"), s. split; [reflexivity|].
  eval_lits. repeat constructor.
Qed.

(** ** The normaliser *)

Lemma format_content_add_prefix content qr_type :
  format_content content qr_type = add_prefix (strip content) qr_type.
Proof.
  unfold format_content, add_prefix.
  repeat match goal with |- context [negb ?b] => destruct b; simpl end;
  repeat match goal with |- context [if ?b then _ else _] => destruct b end; reflexivity.
Qed.

Lemma add_prefix_url c :
  add_prefix c (lit "url") = if re_match re_http c then c else lit "https://" ++ c.
Proof. reflexivity. Qed.

Lemma add_prefix_email c :
  add_prefix c (lit "email")
  = if startswith (lit "mailto:") (lower c) then c else lit "mailto:" ++ c.
Proof. reflexivity. Qed.

Lemma add_prefix_stripped c qr_type : stripped c -> stripped (add_prefix c qr_type).
Proof.
  intros Hc. unfold add_prefix.
  repeat match goal with |- context [if ?b then _ else _] => destruct b end;
    try exact Hc; apply stripped_app;
    solve [ discriminate | exact Hc | apply stripped_https | apply stripped_mailto
          | apply stripped_tel ].
Qed.

Lemma add_prefix_idempotent c qr_type :
  stripped c -> add_prefix (add_prefix c qr_type) qr_type = add_prefix c qr_type.
Proof.
  intros Hc. unfold add_prefix.
  destruct (str_eqb qr_type (lit "url")).
  { destruct (re_match re_http c) eqn:E; [rewrite E | rewrite re_match_https]; reflexivity. }
  destruct (str_eqb qr_type (lit "email")).
  { destruct (startswith (lit "mailto:") (lower c)) eqn:E;
      [rewrite E | rewrite lower_mailto]; reflexivity. }
  destruct (str_eqb qr_type (lit "phone")).
  { destruct (startswith (lit "tel:") (lower c)) eqn:E;
      [rewrite E | rewrite lower_tel]; reflexivity. }
  reflexivity.
Qed.

Lemma format_content_idempotent content qr_type :
  format_content (format_content content qr_type) qr_type = format_content content qr_type.
Proof.
  rewrite !format_content_add_prefix.
  rewrite (stripped_strip (add_prefix _ _)).
  - apply add_prefix_idempotent, strip_stripped.
  - apply add_prefix_stripped, strip_stripped.
Qed.

(** ** Worked examples *)

Example url_round_trip today :
  detect_type (lit "https://example.com") = lit "url" /\
  format_content (lit "https://example.com") (lit "url") = lit "https://example.com" /\
  make_filename today (lit "My Website") = lit "my-website_" ++ isoformat today.
Proof. repeat split; vm_compute; reflexivity. Qed.

Example wifi_payload :
  detect_type (lit "WIFI:T:WPA;S:MyNetwork;P:MyPassword;;") = lit "wifi" /\
  format_content (lit "WIFI:T:WPA;S:MyNetwork;P:MyPassword;;") (lit "wifi")
  = lit "WIFI:T:WPA;S:MyNetwork;P:MyPassword;;".
Proof. split; vm_compute; reflexivity. Qed.

Example precedence_pinned :
  detect_type (lit "www.shop@example.com") = lit "url" /\
  detect_type (lit "mailto:555-123-4567") = lit "email" /\
  detect_type (lit "555 123 4567") = lit "phone" /\
  detect_type (lit "12345") = lit "text".
Proof. repeat split; vm_compute; reflexivity. Qed.

Example iso_date :
  isoformat {| year := 2026; month := 3; day := 7 |} = lit "2026-03-07".
Proof. vm_compute. reflexivity. Qed.

Lemma format_content_passthrough content qr_type :
  In qr_type [lit "wifi"; lit "text"; lit "other"] ->
  format_content content qr_type = strip content.
Proof.
  intros Hin. unfold format_content. simpl in Hin.
  destruct Hin as [<-|[<-|[<-|[]]]]; reflexivity.
Qed.

(** * Classification and normalisation *)

(** C1 (as amended).  [detect_type] is a total function whose verdict
    is one of wifi, url, email, phone and text, never other, and is the
    verdict of the first rule, in the fixed order, that holds of the
    input once its leading and trailing white space is stripped. *)
Theorem detect_type_first_match content :
  (forall out, classify (strip content) out <-> out = detect_type content) /\
  In (detect_type content)
     [lit "wifi"; lit "url"; lit "email"; lit "phone"; lit "text"] /\
  detect_type content <> lit "other".
Proof.
  pose proof (classify_detect_type content) as Hc.
  assert (Hin : In (detect_type content)
                  [lit "wifi"; lit "url"; lit "email"; lit "phone"; lit "text"]).
  { apply first_match_In in Hc. simpl in Hc. simpl. intuition. }
  split; [|split; [exact Hin|]].
  - intros out. split.
    + intros H. exact (first_match_functional _ _ _ _ H Hc).
    + intros ->. exact Hc.
  - intros E. rewrite E in Hin. vm_compute in Hin. intuition discriminate.
Qed.

(** C8.  The content [+1-555-123-4567] is classified as a phone number
    and normalised, as a phone number, to [tel:+1-555-123-4567]. *)
Theorem phone_example :
  detect_type (lit "+1-555-123-4567") = lit "phone" /\
  format_content (lit "+1-555-123-4567") (lit "phone") = lit "tel:+1-555-123-4567".
Proof. split; vm_compute; reflexivity. Qed.

(** C9.  [format_content] strips the content before the prefix logic:
    it is the prefix logic applied to the stripped content; for the
    types wifi, text and other it is the stripped content; and its
    result has no white space at either end. *)
Theorem format_content_strips content qr_type :
  format_content content qr_type = add_prefix (strip content) qr_type /\
  (In qr_type [lit "wifi"; lit "text"; lit "other"] ->
   format_content content qr_type = strip content) /\
  stripped (format_content content qr_type).
Proof.
  split; [apply format_content_add_prefix|]. split.
  - apply format_content_passthrough.
  - rewrite format_content_add_prefix. apply add_prefix_stripped, strip_stripped.
Qed.

(** C10.  Classification does not see leading or trailing white space:
    a string and its stripped form get the same verdict, and a string
    of white space only (the empty one included) is text. *)
Theorem detect_type_strip content :
  detect_type content = detect_type (strip content) /\
  (Forall (fun ch => isspace ch = true) content -> detect_type content = lit "text").
Proof.
  split.
  - unfold detect_type. rewrite strip_idempotent. reflexivity.
  - intros H. unfold detect_type. rewrite (strip_spaces content H). reflexivity.
Qed.


(** ** Letter case *)

Lemma ascii_lower_eq ch l :
  ascii_lower ch = ascii_lower l ->
  ch = l \/ (ch = l + 32 /\ 65 <= l <= 90) \/ (ch = l - 32 /\ 97 <= l <= 122).
Proof. unfold ascii_lower, ascii_isupper, in_range. intros H. zbool; simpl in H; lia. Qed.

Ltac letter_cases H :=
  apply ascii_lower_eq in H;
  destruct H as [H|[[H ?]|[H ?]]]; [ | try lia | try lia ]; try subst.

Lemma no_space_stripped c : Forall (fun ch => isspace ch = false) c -> stripped c.
Proof.
  intros H. rewrite List.Forall_forall in H. split; intros ch t E; apply H.
  - rewrite E. left. reflexivity.
  - apply in_rev. rewrite E. left. reflexivity.
Qed.

Lemma email_shape_stripped c : email_shape c -> stripped c.
Proof.
  intros (l & d & t & -> & _ & _ & _ & Fl & Fd & Ft).
  assert (Hat : forall s, Forall atom_char s -> Forall (fun ch => isspace ch = false) s).
  { intros s Hs. eapply Forall_impl; [exact Hs|]. intros ch [_ Hch]. exact Hch. }
  apply no_space_stripped.
  apply Forall_app; split; [auto|]. constructor; [reflexivity|].
  apply Forall_app; split; [auto|]. constructor; [reflexivity | auto].
Qed.

(** A string that starts with [WIFI:] in any letter case keeps that
    prefix when stripped, and the prefix upper-cases to [WIFI:]. *)
Lemma any_case_wifi c :
  any_case_prefix "WIFI:" c ->
  exists h t, c = h ++ t /\ upper h = lit "WIFI:" /\
    strip c = h ++ rstrip t /\ strip c = rstrip c.
Proof.
  intros (h & t & -> & F). eval_lits.
  inversion F as [|? a ? h1 Ha F1]; subst; clear F.
  inversion F1 as [|? b ? h2 Hb F2]; subst; clear F1.
  inversion F2 as [|? c ? h3 Hc F3]; subst; clear F2.
  inversion F3 as [|? d ? h4 Hd F4]; subst; clear F3.
  inversion F4 as [|? e ? h5 He F5]; subst; clear F4.
  inversion F5; subst; clear F5.
  exists [a; b; c; d; e], t.
  letter_cases He.
  assert (Hs : stripped ([a; b; c; d] ++ [58])).
  { split; intros ch t' E; simpl in E; injection E as <- _; [|reflexivity].
    letter_cases Ha; reflexivity. }
  pose proof (strip_keeps_prefix [a; b; c; d] 58 t Hs) as Hk. simpl in Hk.
  split; [reflexivity|]. split; [|split; [exact Hk|]].
  - letter_cases Ha; letter_cases Hb; letter_cases Hc; letter_cases Hd; reflexivity.
  - unfold strip. rewrite (lstrip_id (_ ++ t)); [reflexivity|].
    intros ch t' E. simpl in E. injection E as <- _. apply (proj1 Hs a [b; c; d; 58]).
    reflexivity.
Qed.

Lemma rstrip_id c :
  (forall ch t, rev c = ch :: t -> isspace ch = false) -> rstrip c = c.
Proof. intros H. unfold rstrip. rewrite (lstrip_id _ H). apply rev_involutive. Qed.

(** C2 (as amended).  A string that starts with [WIFI:] in any letter
    case is classified as wifi, and [format_content] with type wifi,
    text or other returns it with its trailing white space removed: it
    is unchanged when it does not end in white space. *)
Theorem wifi_passthrough c :
  any_case_prefix "WIFI:" c ->
  detect_type c = lit "wifi" /\
  forall qr_type, In qr_type [lit "wifi"; lit "text"; lit "other"] ->
    format_content c qr_type = rstrip c /\
    ((forall ch t, rev c = ch :: t -> isspace ch = false) ->
     format_content c qr_type = c).
Proof.
  intros H. destruct (any_case_wifi c H) as (h & t & E & Hup & Hst & Hr). split.
  - unfold detect_type. rewrite Hst. unfold upper. rewrite flat_map_app.
    fold (upper h). rewrite Hup, startswith_app. reflexivity.
  - intros qr_type Hin.
    rewrite (format_content_passthrough c qr_type Hin), Hr.
    split; [reflexivity|]. apply rstrip_id.
Qed.

(** C6 (as amended).  A string of the shape [local@domain.tld] is
    classified as email unless an earlier rule (wifi, url) takes it;
    [format_content] with type email prepends [mailto:] to the stripped
    content exactly when the stripped content does not start with it
    already, case ignored; the result starts with [mailto:] and
    normalising it again changes nothing. *)
Theorem email_classified_and_prefixed c :
  (email_shape c -> ~ wifi_prefix c ->
   ~ (iprefix "http://" c \/ iprefix "https://" c \/ iprefix "www." c) ->
   detect_type c = lit "email") /\
  (lower_prefix "mailto:" (strip c) -> format_content c (lit "email") = strip c) /\
  (~ lower_prefix "mailto:" (strip c) ->
   format_content c (lit "email") = lit "mailto:" ++ strip c) /\
  lower_prefix "mailto:" (format_content c (lit "email")) /\
  format_content (format_content c (lit "email")) (lit "email")
  = format_content c (lit "email").
Proof.
  split; [|split; [|split; [|split]]].
  - intros Hshape Hw Hu.
    pose proof (classify_detect_type c) as Hc.
    rewrite (stripped_strip c (email_shape_stripped c Hshape)) in Hc.
    unfold classify, rules in Hc. simpl in Hc.
    destruct Hc as [[Hw' _]|[_ Hc]]; [contradiction|].
    destruct Hc as [[Hu' _]|[_ Hc]]; [contradiction|].
    destruct Hc as [[_ Hc]|[_ Hc]]; [exact Hc|].
    destruct Hc as [[_ Hc]|[Hn _]]; [exact Hc | contradiction].
  - unfold lower_prefix. rewrite format_content_add_prefix, add_prefix_email.
    intros ->. reflexivity.
  - unfold lower_prefix. rewrite format_content_add_prefix, add_prefix_email. intros Hn.
    destruct (startswith (lit "mailto:") (lower (strip c))); [congruence | reflexivity].
  - unfold lower_prefix. rewrite format_content_add_prefix, add_prefix_email.
    destruct (startswith (lit "mailto:") (lower (strip c))) eqn:E;
      [exact E | apply lower_mailto].
  - apply format_content_idempotent.
Qed.

(** C7 (as amended).  [format_content] with type url returns the
    stripped content unchanged when that starts with [http://] or
    [https://], case ignored, and with [https://] prepended otherwise. *)
Theorem url_prefixed c :
  (iprefix "http://" (strip c) \/ iprefix "https://" (strip c) ->
   format_content c (lit "url") = strip c) /\
  (~ (iprefix "http://" (strip c) \/ iprefix "https://" (strip c)) ->
   format_content c (lit "url") = lit "https://" ++ strip c).
Proof.
  rewrite format_content_add_prefix, add_prefix_url. split.
  - intros H. apply re_match_http in H. rewrite H. reflexivity.
  - intros H. destruct (re_match re_http (strip c)) eqn:E; [|reflexivity].
    apply re_match_http in E. contradiction.
Qed.


(** * File names *)

(** ** Substitution *)

Lemma matches_cat_eps r w : matches (Cat Eps r) w <-> matches r w.
Proof.
  split.
  - intros H. apply matches_cat_inv in H as (s1 & s2 & -> & H1 & H2).
    apply matches_eps_inv in H1 as ->. exact H2.
  - intros H. change w with ([] ++ w). constructor; [constructor | exact H].
Qed.

Lemma matches_cat_void r w : matches (Cat Void r) w <-> matches Void w.
Proof.
  split; intros H; [|destruct (matches_void_inv _ H)].
  apply matches_cat_inv in H as (s1 & s2 & _ & H1 & _). destruct (matches_void_inv _ H1).
Qed.

Lemma re_sub_unsafe s : re_sub re_unsafe [] s = List.filter keep_char s.
Proof.
  unfold re_sub, re_unsafe. induction s as [|ch s IH]; [reflexivity|].
  cbn [re_sub_from longest deriv nullable List.filter].
  assert (E : keep_char ch = negb (unsafe_char ch))
    by (unfold unsafe_char, keep_char; rewrite negb_involutive; reflexivity).
  rewrite E. destruct (unsafe_char ch); simpl.
  - rewrite longest_eps. simpl. exact IH.
  - rewrite longest_void. f_equal. exact IH.
Qed.

Lemma longest_star_spaces s : longest (Star (Cls isspace)) s = Some (space_run s).
Proof.
  induction s as [|ch s IH]; [reflexivity|].
  cbn [longest deriv nullable space_run]. destruct (isspace ch).
  - rewrite (longest_ext _ (Star (Cls isspace))) by apply matches_cat_eps.
    rewrite IH. reflexivity.
  - rewrite (longest_ext _ Void) by apply matches_cat_void.
    rewrite longest_void. reflexivity.
Qed.

Lemma longest_spaces ch s :
  longest re_spaces (ch :: s) = if isspace ch then Some (S (space_run s)) else None.
Proof.
  unfold re_spaces, Plus. cbn [longest deriv nullable andb]. destruct (isspace ch).
  - rewrite (longest_ext _ (Star (Cls isspace))) by apply matches_cat_eps.
    rewrite longest_star_spaces. reflexivity.
  - rewrite (longest_ext _ Void) by apply matches_cat_void.
    rewrite longest_void. reflexivity.
Qed.

Lemma re_sub_from_spaces s :
  re_sub_from re_spaces (lit "-") O s = collapse false s /\
  re_sub_from re_spaces (lit "-") (space_run s) s = collapse true s.
Proof.
  induction s as [|ch s [IH0 IHr]]; [split; reflexivity|].
  assert (E0 : re_sub_from re_spaces (lit "-") O (ch :: s) = collapse false (ch :: s)).
  { cbn [re_sub_from collapse]. rewrite longest_spaces. destruct (isspace ch).
    - rewrite IHr. reflexivity.
    - rewrite IH0. reflexivity. }
  split; [exact E0|].
  cbn [space_run]. destruct (isspace ch) eqn:Ec.
  - cbn [re_sub_from collapse]. rewrite Ec. exact IHr.
  - rewrite E0. cbn [collapse]. rewrite Ec. reflexivity.
Qed.

Lemma re_sub_spaces s : re_sub re_spaces (lit "-") s = collapse false s.
Proof. apply re_sub_from_spaces. Qed.

(** ** Decimal numerals and dates *)

Lemma uint_chars_digits d : Forall is_digit_char (uint_chars d).
Proof. induction d; simpl; constructor; (unfold is_digit_char; lia) || assumption. Qed.

Lemma uint_chars_revapp d d' :
  length (uint_chars (Decimal.revapp d d')) = (Unsigned.usize d + length (uint_chars d'))%nat.
Proof.
  revert d'; induction d; intros d'; simpl; try reflexivity; rewrite IHd; simpl; lia.
Qed.

Lemma str_of_nat_usize n : length (str_of_nat n) = Unsigned.usize (Unsigned.to_lu n).
Proof.
  unfold str_of_nat. rewrite Unsigned.to_uint_alt. unfold Decimal.rev.
  rewrite uint_chars_revapp. simpl. lia.
Qed.

(** Counting up either keeps the number of digits or reaches the next
    power of ten. *)
Lemma little_succ_usize d :
  Unsigned.usize (Little.succ d) = Unsigned.usize d \/
  (Unsigned.usize (Little.succ d) = S (Unsigned.usize d) /\
   Z.of_nat (Unsigned.of_lu (Little.succ d)) = 10 ^ Z.of_nat (Unsigned.usize d)).
Proof.
  induction d; try (left; reflexivity).
  - right. split; reflexivity.
  - change (Little.succ (D9 d)) with (D0 (Little.succ d)).
    change (Unsigned.usize (D0 (Little.succ d))) with (S (Unsigned.usize (Little.succ d))).
    change (Unsigned.usize (D9 d)) with (S (Unsigned.usize d)).
    change (Unsigned.of_lu (D0 (Little.succ d))) with (10 * Unsigned.of_lu (Little.succ d))%nat.
    destruct IHd as [E|[E V]]; [left; congruence|].
    right. split; [congruence|].
    rewrite Nat2Z.inj_mul, V, (Nat2Z.inj_succ (Unsigned.usize d)), Z.pow_succ_r by lia.
    reflexivity.
Qed.

(** A numeral has no leading zero. *)
Lemma to_lu_no_leading_zero n :
  (Unsigned.usize (Unsigned.to_lu n) <= 1)%nat \/
  10 ^ (Z.of_nat (Unsigned.usize (Unsigned.to_lu n)) - 1) <= Z.of_nat n.
Proof.
  induction n as [|n IH]; [left; simpl; lia|].
  rewrite Unsigned.to_lu_succ.
  destruct (little_succ_usize (Unsigned.to_lu n)) as [E|[E V]].
  - rewrite E. destruct IH as [IH|IH]; [left; exact IH | right; lia].
  - right. rewrite E. rewrite Unsigned.of_lu_succ, Unsigned.of_to_lu in V.
    replace (Z.of_nat (S (Unsigned.usize (Unsigned.to_lu n))) - 1)
      with (Z.of_nat (Unsigned.usize (Unsigned.to_lu n))) by lia.
    rewrite <- V. lia.
Qed.

Lemma str_of_nat_length n k :
  (1 <= k)%nat -> Z.of_nat n < 10 ^ Z.of_nat k -> (length (str_of_nat n) <= k)%nat.
Proof.
  intros Hk Hn. rewrite str_of_nat_usize.
  destruct (to_lu_no_leading_zero n) as [H|H]; [lia|].
  destruct (Nat.le_gt_cases (Unsigned.usize (Unsigned.to_lu n)) k) as [Hle|Hgt]; [exact Hle|].
  exfalso.
  assert (10 ^ Z.of_nat k <= 10 ^ (Z.of_nat (Unsigned.usize (Unsigned.to_lu n)) - 1))
    by (apply Z.pow_le_mono_r; lia).
  lia.
Qed.

Lemma zfill_length w s : (length s <= w)%nat -> length (zfill w s) = w.
Proof. intros H. unfold zfill. rewrite length_app, repeat_length. lia. Qed.

Lemma zfill_digits w s : Forall is_digit_char s -> Forall is_digit_char (zfill w s).
Proof.
  intros H. unfold zfill. apply Forall_app. split; [|exact H].
  induction (w - length s)%nat; simpl; constructor; [unfold is_digit_char; lia | assumption].
Qed.

Lemma isoformat_form d : valid_date d -> iso_form (isoformat d).
Proof.
  intros (Hy & Hm & Hd).
  exists (zfill 4 (str_of_nat (year d))), (zfill 2 (str_of_nat (month d))),
         (zfill 2 (str_of_nat (day d))).
  split; [reflexivity|].
  split; [apply zfill_length, str_of_nat_length; simpl; lia|].
  split; [apply zfill_length, str_of_nat_length; simpl; lia|].
  split; [apply zfill_length, str_of_nat_length; simpl; lia|].
  repeat split; apply zfill_digits, uint_chars_digits.
Qed.

(** ** The slug *)

Lemma collapse_length b s : (length (collapse b s) <= length s)%nat.
Proof.
  revert b; induction s as [|ch s IH]; intros b; simpl; [lia|].
  destruct (isspace ch); [destruct b|]; simpl;
    [specialize (IH true) | specialize (IH true) | specialize (IH false)]; lia.
Qed.

Lemma collapse_chars b s :
  Forall (fun ch => keep_char ch = true) s -> Forall word_or_hyphen (collapse b s).
Proof.
  intros H. revert b. induction H as [|ch s Hch _ IH]; intros b; simpl; [constructor|].
  destruct (isspace ch) eqn:Ec.
  - destruct b; [apply IH|]. constructor; [right; reflexivity | apply IH].
  - constructor; [|apply IH].
    unfold keep_char in Hch. rewrite Ec, orb_false_r in Hch.
    apply orb_true_iff in Hch as [Hw|He]; [left; exact Hw | right; apply Z.eqb_eq; exact He].
Qed.

Lemma collapse_ascii b s :
  Forall (fun ch => is_ascii ch = true) s ->
  Forall (fun ch => is_ascii ch = true) (collapse b s).
Proof.
  intros H. revert b. induction H as [|ch s Hch _ IH]; intros b; simpl; [constructor|].
  destruct (isspace ch); [destruct b|]; auto.
Qed.

Lemma filter_keep_chars s : Forall (fun ch => keep_char ch = true) (List.filter keep_char s).
Proof. apply List.Forall_forall. intros ch Hin. apply filter_In in Hin as [_ H]. exact H. Qed.

Lemma filter_Forall (P : Z -> Prop) f s : Forall P s -> Forall P (List.filter f s).
Proof.
  rewrite !List.Forall_forall. intros H ch Hin. apply filter_In in Hin as [Hin _]. auto.
Qed.

Lemma take_Forall (P : Z -> Prop) n s : Forall P s -> Forall P (take n s).
Proof.
  intros H. revert n. induction H as [|ch s Hch _ IH]; intros [|n]; simpl; auto.
Qed.

Lemma slug_cased_length label : (length (slug_cased label) <= 50)%nat.
Proof.
  unfold slug_cased.
  pose proof (collapse_length false (strip (take 50 (List.filter keep_char label)))).
  pose proof (strip_length (take 50 (List.filter keep_char label))).
  pose proof (length_take_le (List.filter keep_char label) 50).
  rewrite length_take in *. lia.
Qed.

Lemma slug_cased_chars label : Forall word_or_hyphen (slug_cased label).
Proof.
  unfold slug_cased. apply collapse_chars, strip_Forall, take_Forall, filter_keep_chars.
Qed.

Lemma slug_cased_ascii label :
  Forall (fun ch => is_ascii ch = true) label ->
  Forall (fun ch => is_ascii ch = true) (slug_cased label).
Proof.
  intros H. unfold slug_cased.
  apply collapse_ascii, strip_Forall, take_Forall, filter_Forall, H.
Qed.

Lemma lower_from_ascii before s :
  Forall (fun ch => is_ascii ch = true) s -> lower_from before s = map ascii_lower s.
Proof.
  intros H. revert before. induction H as [|ch s Hch _ IH]; intros before; simpl; [reflexivity|].
  rewrite Hch, IH. reflexivity.
Qed.

Ltac zbool_prune :=
  repeat (match goal with
          | |- context [?a <=? ?b] => destruct (Z.leb_spec a b)
          | |- context [?a <? ?b] => destruct (Z.ltb_spec a b)
          | |- context [?a =? ?b] => destruct (Z.eqb_spec a b)
          end; try lia).

Lemma slug_char_lower ch :
  is_ascii ch = true -> word_or_hyphen ch -> slug_char (ascii_lower ch) = true.
Proof.
  unfold word_or_hyphen, isword. intros Ha Hw. rewrite Ha in Hw.
  assert (Hcases : 65 <= ch <= 90 \/ 97 <= ch <= 122 \/ 48 <= ch <= 57 \/ ch = 95 \/ ch = 45).
  { destruct Hw as [Hw| ->]; [|auto 10]. unfold_ascii.
    rewrite !orb_true_iff, !andb_true_iff, !Z.leb_le, Z.eqb_eq in Hw. lia. }
  clear Hw Ha.
  assert (El : ascii_lower ch = ch + 32 /\ 65 <= ch <= 90 \/
               ascii_lower ch = ch /\ ~ 65 <= ch <= 90).
  { unfold ascii_lower, ascii_isupper, in_range. zbool_prune; simpl; lia. }
  unfold slug_char, ascii_islower, ascii_isdigit, in_range. eval_lits.
  destruct El as [[-> ?]|[-> ?]]; zbool_prune; reflexivity.
Qed.

Lemma make_filename_safe_slug label : make_filename_safe label = slug label.
Proof.
  unfold make_filename_safe, slug, slug_cased.
  rewrite re_sub_unsafe, re_sub_spaces.
  destruct (lower _); reflexivity.
Qed.

Lemma slug_nonempty label : slug label <> [].
Proof. unfold slug. destruct (lower _); discriminate. Qed.

Lemma slug_cases label :
  slug label = lit "qr-code" \/ slug label = lower (slug_cased label).
Proof. unfold slug. destruct (lower _); auto. Qed.

Lemma slug_ascii label :
  Forall (fun ch => is_ascii ch = true) label ->
  (length (slug label) <= 50)%nat /\ Forall (fun ch => slug_char ch = true) (slug label).
Proof.
  intros Ha. pose proof (slug_cased_ascii label Ha) as Hc.
  pose proof (slug_cased_length label) as Hl.
  pose proof (slug_cased_chars label) as Hw.
  unfold slug, lower. rewrite (lower_from_ascii [] _ Hc).
  destruct (map ascii_lower (slug_cased label)) as [|x m] eqn:E.
  - split; [vm_compute; lia | vm_compute; repeat constructor].
  - rewrite <- E. rewrite length_map. split; [exact Hl|].
    clear E. induction Hc as [|ch s Hch Hs IH]; [constructor|].
    inversion Hw; subst. simpl in Hl. simpl. constructor.
    + apply slug_char_lower; assumption.
    + apply IH; [lia | assumption].
Qed.

(** C5 (as amended).  [make_filename] is the reference pipeline
    followed by an underscore and the date, which has the form
    YYYY-MM-DD: the slug is [qr-code] or the lower case of a string of
    at most 50 word characters and hyphens, and is never empty; for a
    label of ASCII characters it has at most 50 characters, all of them
    lower-case letters, digits, underscores or hyphens. *)
Theorem make_filename_pipeline today label :
  make_filename today label = slug label ++ lit "_" ++ isoformat today /\
  (valid_date today -> iso_form (isoformat today)) /\
  slug label <> [] /\
  (slug label = lit "qr-code" \/ slug label = lower (slug_cased label)) /\
  (length (slug_cased label) <= 50)%nat /\
  Forall word_or_hyphen (slug_cased label) /\
  (Forall (fun ch => is_ascii ch = true) label ->
   (length (slug label) <= 50)%nat /\
   Forall (fun ch => slug_char ch = true) (slug label)).
Proof.
  unfold make_filename. rewrite make_filename_safe_slug.
  split; [reflexivity|].
  split; [apply isoformat_form|].
  split; [apply slug_nonempty|].
  split; [apply slug_cases|].
  split; [apply slug_cased_length|].
  split; [apply slug_cased_chars | apply slug_ascii].
Qed.


(** * Output paths *)

Lemma uint_chars_inj d d' : uint_chars d = uint_chars d' -> d = d'.
Proof.
  revert d'; induction d; intros []; simpl; intros E; try discriminate; try reflexivity;
    injection E as E; f_equal; auto.
Qed.

Lemma str_of_nat_inj n m : str_of_nat n = str_of_nat m -> n = m.
Proof. intros E. apply uint_chars_inj in E. apply Unsigned.to_uint_inj, E. Qed.

(** Digits are delimited by the dot that follows them. *)
Lemma digits_dot_inj a b x y :
  Forall is_digit_char a -> Forall is_digit_char b ->
  a ++ 46 :: x = b ++ 46 :: y -> a = b /\ x = y.
Proof.
  intros Ha. revert b. induction Ha as [|c a Hc _ IH]; intros b Hb E.
  - destruct Hb as [|c' b Hc' _]; simpl in E.
    + injection E as ->. auto.
    + injection E as <- _. unfold is_digit_char in Hc'. lia.
  - destruct Hb as [|c' b Hc' Hb]; simpl in E.
    + injection E as -> _. unfold is_digit_char in Hc. lia.
    + injection E as -> E. destruct (IH b Hb E) as [-> ->]. auto.
Qed.

(** Joining the directory and a name that starts with the base name
    prepends one fixed string. *)
Lemma os_path_join_stem archive_dir base_name :
  exists P, forall rest,
    os_path_join archive_dir (base_name ++ lit "-" ++ rest) = P ++ rest.
Proof.
  unfold os_path_join.
  destruct base_name as [|b bs].
  - destruct (str_eqb archive_dir [] || endswith (lit "/") archive_dir).
    + exists (archive_dir ++ lit "-"). intros rest. simpl. rewrite <- app_assoc. reflexivity.
    + exists (archive_dir ++ lit "/" ++ lit "-"). intros rest. simpl.
      rewrite <- app_assoc. reflexivity.
  - change (startswith (lit "/") ((b :: bs) ++ lit "-" ++ ?r))
      with ((47 =? b) && true).
    destruct ((47 =? b) && true).
    + exists ((b :: bs) ++ lit "-"). intros rest. rewrite <- app_assoc. reflexivity.
    + destruct (str_eqb archive_dir [] || endswith (lit "/") archive_dir).
      * exists (archive_dir ++ (b :: bs) ++ lit "-"). intros rest.
        rewrite <- !app_assoc. reflexivity.
      * exists (archive_dir ++ lit "/" ++ (b :: bs) ++ lit "-"). intros rest.
        rewrite <- !app_assoc. reflexivity.
Qed.

(** The paths of the numbered candidates. *)
Lemma candidate_succ archive_dir base_name :
  exists P, forall i,
    candidate archive_dir base_name (S i)
    = (P ++ str_of_nat (i + 2) ++ lit ".png", P ++ str_of_nat (i + 2) ++ lit ".pdf").
Proof.
  destruct (os_path_join_stem archive_dir base_name) as (P & HP).
  exists P. intros i. unfold candidate, stem.
  rewrite <- !app_assoc, !HP. reflexivity.
Qed.

Lemma os_path_exists_dom d p : os_path_exists d p = true <-> p ∈ dom (files d).
Proof.
  unfold os_path_exists. rewrite bool_decide_eq_true. symmetry. apply elem_of_dom.
Qed.

Lemma not_free_blocked d pp :
  ~ free d pp -> os_path_exists d (fst pp) || os_path_exists d (snd pp) = true.
Proof.
  unfold free. destruct (os_path_exists d (fst pp)), (os_path_exists d (snd pp)); tauto.
Qed.

Lemma free_dec d pp : free d pp \/ ~ free d pp.
Proof.
  unfold free. destruct (os_path_exists d (fst pp)), (os_path_exists d (snd pp));
    intuition congruence.
Qed.

Lemma blocker_on_disk d pp : ~ free d pp -> blocker d pp ∈ dom (files d).
Proof.
  intros H. apply not_free_blocked in H. unfold blocker.
  destruct (os_path_exists d (fst pp)) eqn:E1.
  - apply os_path_exists_dom, E1.
  - apply os_path_exists_dom. simpl in H. exact H.
Qed.

Lemma blocker_inj d archive_dir base_name i j :
  blocker d (candidate archive_dir base_name (S i))
  = blocker d (candidate archive_dir base_name (S j)) -> i = j.
Proof.
  destruct (candidate_succ archive_dir base_name) as (P & HP).
  unfold blocker. rewrite !HP. simpl.
  assert (Hinj : forall e1 e2 : list Z,
    P ++ str_of_nat (i + 2) ++ 46 :: e1 = P ++ str_of_nat (j + 2) ++ 46 :: e2 -> i = j).
  { intros e1 e2 E. apply app_inv_head in E.
    apply digits_dot_inj in E as [E _]; try apply uint_chars_digits.
    apply str_of_nat_inj in E. lia. }
  repeat match goal with |- context [if ?b then _ else _] => destruct b end;
    apply Hinj.
Qed.

(** Not all of more candidates than there are files can be blocked. *)
Lemma some_candidate_free d archive_dir base_name :
  ~ (forall j, (1 <= j <= S (size (files d)))%nat ->
               ~ free d (candidate archive_dir base_name j)).
Proof.
  intros Hall.
  set (w := fun j => blocker d (candidate archive_dir base_name j)).
  set (l := w <$> seq 1 (S (size (files d)))).
  assert (Hnd : NoDup l).
  { apply NoDup_fmap_2_strong; [|apply NoDup_seq].
    intros x y Hx Hy E. apply elem_of_seq in Hx, Hy.
    destruct x as [|x]; [lia|]. destruct y as [|y]; [lia|].
    f_equal. apply (blocker_inj d archive_dir base_name). exact E. }
  assert (Hsub : forall p, p ∈ l -> p ∈ elements (dom (files d))).
  { intros p Hp. apply list_elem_of_fmap in Hp as (j & -> & Hj).
    apply elem_of_seq in Hj. apply elem_of_elements, blocker_on_disk, Hall. lia. }
  pose proof (submseteq_length _ _ (NoDup_submseteq _ _ Hnd Hsub)) as Hlen.
  unfold l in Hlen. rewrite length_fmap, length_seq in Hlen.
  change (length (elements (dom (files d)))) with (size (dom (files d))) in Hlen.
  rewrite size_dom in Hlen. lia.
Qed.

(** A bounded search finds the least index with a decidable property. *)
Lemma least_index (P : nat -> Prop) n :
  (forall j, P j \/ ~ P j) ->
  (exists j, (j <= n)%nat /\ P j /\ forall i, (i < j)%nat -> ~ P i) \/
  (forall j, (j <= n)%nat -> ~ P j).
Proof.
  intros Hdec. induction n as [|n [(j & Hj & HP & Hmin)|Hnone]].
  - destruct (Hdec O) as [H0|H0].
    + left. exists O. split; [lia|]. split; [exact H0|]. intros i Hi. lia.
    + right. intros j Hj. replace j with O by lia. exact H0.
  - left. exists j. split; [lia | auto].
  - destruct (Hdec (S n)) as [HS|HS].
    + left. exists (S n). split; [lia|]. split; [exact HS|].
      intros i Hi. apply Hnone. lia.
    + right. intros j Hj. destruct (Nat.eq_dec j (S n)) as [->|Hne]; [exact HS|].
      apply Hnone. lia.
Qed.

Lemma first_free_candidate d archive_dir base_name :
  exists j, (j <= S (size (files d)))%nat /\
    free d (candidate archive_dir base_name j) /\
    forall i, (i < j)%nat -> ~ free d (candidate archive_dir base_name i).
Proof.
  destruct (least_index (fun j => free d (candidate archive_dir base_name j))
              (S (size (files d))) (fun j => free_dec d _)) as [H|H]; [exact H|].
  exfalso. apply (some_candidate_free d archive_dir base_name).
  intros j Hj. apply H. lia.
Qed.

(** The loop, from candidate [j] on, returns the first free one. *)
Lemma resolve_loop_first_free d archive_dir base_name n :
  forall j fuel,
    (forall i, (j <= i < j + n)%nat -> ~ free d (candidate archive_dir base_name i)) ->
    free d (candidate archive_dir base_name (j + n)) ->
    (n < fuel)%nat ->
    resolve_loop fuel d archive_dir base_name (j + 2)
      (fst (candidate archive_dir base_name j)) (snd (candidate archive_dir base_name j))
    = Some (candidate archive_dir base_name (j + n)).
Proof.
  induction n as [|n IH]; intros j fuel Hblocked Hfree Hfuel;
    (destruct fuel as [|fuel]; [lia|]); cbn [resolve_loop].
  - rewrite Nat.add_0_r in *. destruct Hfree as [-> ->]. cbn [orb].
    rewrite <- surjective_pairing. reflexivity.
  - rewrite (not_free_blocked d _ (Hblocked j ltac:(lia))).
    replace (j + S n)%nat with (S j + n)%nat by lia.
    rewrite <- (IH (S j) fuel).
    + unfold candidate, stem. cbn [fst snd].
      replace (S j + 2)%nat with (S (j + 2)) by lia. rewrite <- !app_assoc. reflexivity.
    + intros i Hi. apply Hblocked. lia.
    + replace (S j + n)%nat with (j + S n)%nat by lia. exact Hfree.
    + lia.
Qed.

(** C3.  [resolve_paths] returns the pair of the first stem among
    [base_name], [base_name-2], [base_name-3], ... whose two paths are
    both absent from the disk: such a stem exists within one more than
    the number of files, the loop ends there, and neither returned
    path exists. *)
Theorem resolve_paths_first_free d archive_dir base_name :
  exists j,
    (j <= S (size (files d)))%nat /\
    (forall fuel, (j < fuel)%nat ->
       resolve_paths fuel d archive_dir base_name
       = Some (candidate archive_dir base_name j)) /\
    resolve_paths (size (files d) + 2) d archive_dir base_name
    = Some (candidate archive_dir base_name j) /\
    (forall i, (i < j)%nat -> ~ free d (candidate archive_dir base_name i)) /\
    os_path_exists d (fst (candidate archive_dir base_name j)) = false /\
    os_path_exists d (snd (candidate archive_dir base_name j)) = false.
Proof.
  destruct (first_free_candidate d archive_dir base_name) as (j & Hj & Hfree & Hmin).
  assert (Hrun : forall fuel, (j < fuel)%nat ->
            resolve_paths fuel d archive_dir base_name
            = Some (candidate archive_dir base_name j)).
  { intros fuel Hfuel. unfold resolve_paths.
    apply (resolve_loop_first_free d archive_dir base_name j 0 fuel); auto.
    intros i Hi. apply Hmin. lia. }
  exists j. split; [exact Hj|]. split; [exact Hrun|].
  split; [apply Hrun; lia|]. split; [exact Hmin | exact Hfree].
Qed.


(** * The temporary file *)

Lemma png_name_nonempty stem : str_eqb (stem ++ lit ".png") [] = false.
Proof. destruct stem; reflexivity. Qed.

Lemma create_file_exists p d : os_path_exists (create_file p d) p = true.
Proof.
  unfold os_path_exists, create_file. simpl. apply bool_decide_eq_true.
  rewrite lookup_insert_eq. eauto.
Qed.

Lemma write_file_existing p d : os_path_exists d p = true -> write_file p d = d.
Proof. unfold write_file. intros ->. reflexivity. Qed.

(** Unlinking the file just created leaves the identities of before. *)
Lemma unlink_created_lookup p d q :
  files (os_unlink p (create_file p d)) !! q
  = if decide (p = q) then None else files d !! q.
Proof.
  unfold os_unlink, create_file. simpl. rewrite delete_insert_eq.
  rewrite lookup_delete. reflexivity.
Qed.

Ltac run_monad :=
  unfold library_call, image_save, pdf_output, unlink, on_disk, set_tmp, set_tmp_path,
    get_tmp_path, get_disk, raise, try_finally, mbind, M_bind, m_bind, mret,
    M_ret, m_ret; cbn [tmp tmp_path fs name ident].

(** The run of [create_pdf], case by case.  The [finally] block runs
    behind every exit of the [try] block; when its [os.unlink] raises,
    that exception is the one that leaves [create_pdf], and neither the
    caption nor [pdf.output] is reached. *)
Lemma create_pdf_run o output_path d :
  create_pdf o output_path (entry d) =
  if setup_raises o then (Raised, entry d) else
  match tmp_stem o with
  | None => (Raised, entry d)
  | Some stem =>
      let p := stem ++ lit ".png" in
      if os_path_exists d p then (Raised, entry d) else
      if unlink_raises o then (Raised, bound p (fresh d) (create_file p d)) else
      let d' := os_unlink p (create_file p d) in
      if save_raises o || close_raises o || image_raises o || caption_raises o then
        (Raised, bound p (fresh d) d')
      else
        (if output_raises o then Raised else Returned tt,
         bound p (fresh d) (if output_writes o then write_file output_path d' else d'))
  end.
Proof.
  unfold create_pdf, NamedTemporaryFile, entry, bound.
  destruct (setup_raises o); [reflexivity|].
  destruct (tmp_stem o) as [stem|]; [|reflexivity].
  run_monad.
  destruct (os_path_exists d (stem ++ lit ".png")) eqn:Ex; [reflexivity|].
  cbn [tmp tmp_path fs name ident].
  rewrite (write_file_existing _ _ (create_file_exists (stem ++ lit ".png") d)).
  cbv zeta. unfold truthy.
  destruct (save_raises o), (close_raises o), (image_raises o), (unlink_raises o);
    run_monad; cbn [tmp tmp_path fs name ident];
    rewrite ?png_name_nonempty, ?create_file_exists; cbn [negb andb orb];
    cbn [tmp tmp_path fs name ident]; try reflexivity.
  destruct (caption_raises o); run_monad; [reflexivity|].
  destruct (output_writes o), (output_raises o); reflexivity.
Qed.

(** No path leads to the file that was made and unlinked. *)
Lemma unlink_created_gone p d q :
  disk_wf d -> files (os_unlink p (create_file p d)) !! q <> Some (fresh d).
Proof.
  intros Hwf. rewrite unlink_created_lookup. destruct (decide (p = q)); [discriminate|].
  intros E. apply Hwf in E. lia.
Qed.

(** Writing the PDF does not bring it back. *)
Lemma written_gone p d output_path q :
  disk_wf d ->
  files (write_file output_path (os_unlink p (create_file p d))) !! q <> Some (fresh d).
Proof.
  intros Hwf. unfold write_file.
  destruct (os_path_exists (os_unlink p (create_file p d)) output_path);
    [apply unlink_created_gone, Hwf|].
  unfold create_file at 1. cbn [files fresh os_unlink create_file].
  destruct (decide (output_path = q)) as [<-|Hne].
  - rewrite lookup_insert_eq. intros [=]. lia.
  - rewrite lookup_insert_ne by exact Hne.
    apply (unlink_created_gone p d q Hwf).
Qed.

Lemma unlink_created_absent p d : os_path_exists (os_unlink p (create_file p d)) p = false.
Proof.
  unfold os_path_exists. apply bool_decide_eq_false.
  rewrite unlink_created_lookup, decide_True by reflexivity. intros [x Hx]. discriminate.
Qed.

Lemma write_file_absent p q d :
  p <> q -> os_path_exists d p = false -> os_path_exists (write_file q d) p = false.
Proof.
  intros Hne H. unfold write_file. destruct (os_path_exists d q); [exact H|].
  unfold os_path_exists, create_file in *. cbn [files].
  apply bool_decide_eq_false. apply bool_decide_eq_false in H.
  rewrite lookup_insert_ne by congruence. exact H.
Qed.

(** C4 (as amended).  When [create_pdf] has created its temporary PNG
    file, under the name [p], the handle [tmp] denotes that file, and
    unless the
    [os.unlink] of the [finally] block itself raises, then however
    [create_pdf] ends, by returning or by raising from any other of
    its calls, that file is off the disk: no path leads to it any
    more, and the name [p] does not exist (unless the PDF itself was
    written under that very name).  When that [os.unlink] raises,
    [create_pdf] ends by raising and the file is still there under its
    name. *)
Theorem create_pdf_removes_tmp o output_path d p r st :
  disk_wf d -> makes_tmp o d p ->
  create_pdf o output_path (entry d) = (r, st) ->
  tmp st = Some {| name := p; ident := fresh d |} /\
  (unlink_raises o = false ->
   (forall q, files (fs st) !! q <> Some (fresh d)) /\
   (p <> output_path -> os_path_exists (fs st) p = false)) /\
  (unlink_raises o = true ->
   r = Raised /\ files (fs st) !! p = Some (fresh d)).
Proof.
  intros Hwf (Hsetup & stem & Hstem & -> & Hfree) Hrun.
  rewrite create_pdf_run, Hsetup, Hstem in Hrun. cbv zeta in Hrun.
  rewrite Hfree in Hrun.
  destruct (unlink_raises o).
  { injection Hrun as <- <-. cbn [bound tmp fs create_file files].
    split; [reflexivity|]. split; [discriminate|].
    intros _. split; [reflexivity | apply lookup_insert_eq]. }
  destruct (save_raises o || close_raises o || image_raises o || caption_raises o).
  - injection Hrun as _ <-. cbn [bound tmp fs].
    split; [reflexivity|]. split; [|discriminate].
    intros _. split; [intros q; apply unlink_created_gone, Hwf|].
    intros _. apply unlink_created_absent.
  - injection Hrun as _ <-. cbn [bound tmp fs]. split; [reflexivity|].
    split; [|discriminate]. intros _.
    destruct (output_writes o).
    + split; [intros q; apply written_gone, Hwf|].
      intros Hne. apply write_file_absent; [exact Hne | apply unlink_created_absent].
    + split; [intros q; apply unlink_created_gone, Hwf|].
      intros _. apply unlink_created_absent.
Qed.


(** * Further properties of the classifier and the normaliser *)

Lemma detect_type_verdict content : detect_type content = verdict (strip content).
Proof. reflexivity. Qed.

Lemma verdict_stripped c : stripped c -> detect_type c = verdict c.
Proof. intros H. rewrite detect_type_verdict, (stripped_strip c H). reflexivity. Qed.

Lemma add_prefix_phone c :
  add_prefix c (lit "phone")
  = if startswith (lit "tel:") (lower c) then c else lit "tel:" ++ c.
Proof. reflexivity. Qed.

(** A case-blind prefix shows in the first character. *)
Lemma iprefix_head p c :
  iprefix p c ->
  match lit p, c with
  | l :: _, ch :: _ => literal_ignorecase l ch = true
  | [], _ => True
  | _ :: _, [] => False
  end.
Proof.
  intros (h & t & -> & F). destruct F as [|l ch ls h Hl _]; simpl; [|exact Hl].
  exact I.
Qed.

(** The string cannot start with the pattern: the first characters
    differ. *)
Ltac head_mismatch :=
  match goal with
  | |- re_match re_http _ = false =>
      let E := fresh "E" in
      destruct (re_match re_http _) eqn:E; [exfalso|reflexivity];
      apply re_match_http in E; destruct E as [E|E];
      apply iprefix_head in E; vm_compute in E; discriminate
  | |- re_match ?r _ = false =>
      let E := fresh "E" in
      destruct (re_match r _) eqn:E; [exfalso|reflexivity];
      apply re_match_ilit in E;
      apply iprefix_head in E; vm_compute in E; discriminate
  end.

Lemma verdict_https s : verdict (lit "https://" ++ s) = lit "url".
Proof.
  unfold verdict.
  change (startswith (lit "WIFI:") (upper (lit "https://" ++ s))) with false.
  rewrite re_match_https. reflexivity.
Qed.

Lemma verdict_mailto s : verdict (lit "mailto:" ++ s) = lit "email".
Proof.
  unfold verdict.
  change (startswith (lit "WIFI:") (upper (lit "mailto:" ++ s))) with false.
  assert (H1 : re_match re_http (lit "mailto:" ++ s) = false) by head_mismatch.
  assert (H2 : re_match re_www (lit "mailto:" ++ s) = false) by head_mismatch.
  assert (H3 : re_match re_mailto (lit "mailto:" ++ s) = true).
  { apply re_match_ilit. exists (lit "mailto:"), s. split; [reflexivity|].
    eval_lits. repeat constructor. }
  rewrite H1, H2, H3. reflexivity.
Qed.

Lemma verdict_tel s :
  stripped s -> ~ email_shape (lit "tel:" ++ s) -> verdict (lit "tel:" ++ s) = lit "phone".
Proof.
  intros Hs Hne. unfold verdict.
  change (startswith (lit "WIFI:") (upper (lit "tel:" ++ s))) with false.
  assert (H1 : re_match re_http (lit "tel:" ++ s) = false) by head_mismatch.
  assert (H2 : re_match re_www (lit "tel:" ++ s) = false) by head_mismatch.
  assert (H3 : re_match re_mailto (lit "tel:" ++ s) = false) by head_mismatch.
  assert (H4 : re_match_dollar re_email (lit "tel:" ++ s) = false).
  { rewrite re_match_dollar_stripped
      by (apply stripped_app; [discriminate | apply stripped_tel | exact Hs]).
    destruct (fullmatch re_email (lit "tel:" ++ s)) eqn:E; [|reflexivity].
    apply fullmatch_email in E. contradiction. }
  assert (H5 : re_match re_tel (lit "tel:" ++ s) = true).
  { apply re_match_ilit. exists (lit "tel:"), s. split; [reflexivity|].
    eval_lits. repeat constructor. }
  rewrite H1, H2, H3, H4, H5. reflexivity.
Qed.

(** Behind [tel:] an address keeps its shape, unless its local part
    was the scheme itself. *)
Lemma email_shape_tel s :
  email_shape (lit "tel:" ++ s) -> email_shape s \/ exists t, s = chr "@" :: t.
Proof.
  intros (l & d & t & E & Hl & Hd & Ht & Fl & Fd & Ft). eval_lits.
  destruct l as [|a [|b [|c [|e l']]]]; simpl in E; try congruence;
    try (injection E; intros; discriminate).
  injection E as _ _ _ _ E.
  destruct l' as [|x l'].
  - right. eexists. exact E.
  - left. exists (x :: l'), d, t. eval_lits.
    do 4 (apply Forall_inv_tail in Fl). repeat split; auto; discriminate.
Qed.

Lemma email_shape_dollar s : stripped s -> email_shape s -> re_match_dollar re_email s = true.
Proof.
  intros Hs H. rewrite (re_match_dollar_stripped _ _ Hs). apply fullmatch_email, H.
Qed.

Lemma at_sign_no_phone t : ~ phone_shape (chr "@" :: t).
Proof.
  intros (body & [E|E] & _ & F); eval_lits; [|discriminate].
  subst body. apply Forall_inv in F.
  destruct F as [F|[F|[F|[F|F]]]]; vm_compute in F; discriminate.
Qed.

(** X1.  Classification is stable under normalisation: the encoded
    content, classified again, gets the type it was normalised with. *)
Theorem detect_type_of_encoded content :
  detect_type (format_content content (detect_type content)) = detect_type content.
Proof.
  rewrite format_content_add_prefix, (detect_type_verdict content).
  pose proof (strip_stripped content) as Hs. set (s := strip content) in *.
  rewrite verdict_stripped by (apply add_prefix_stripped, Hs).
  remember (verdict s) as t eqn:Ht. unfold verdict in Ht.
  destruct (startswith (lit "WIFI:") (upper s)) eqn:EW.
  { subst t. change (add_prefix s (lit "wifi")) with s.
    unfold verdict. rewrite EW. reflexivity. }
  destruct (re_match re_http s) eqn:EH.
  { subst t. rewrite add_prefix_url, EH. unfold verdict. rewrite EW, EH. reflexivity. }
  destruct (re_match re_www s) eqn:EWw.
  { subst t. rewrite add_prefix_url, EH. apply verdict_https. }
  destruct (re_match re_mailto s) eqn:EM.
  { subst t. rewrite add_prefix_email.
    destruct (startswith (lit "mailto:") (lower s)); [|apply verdict_mailto].
    unfold verdict. rewrite EW, EH, EWw, EM. reflexivity. }
  destruct (re_match_dollar re_email s) eqn:EE.
  { subst t. rewrite add_prefix_email.
    destruct (startswith (lit "mailto:") (lower s)); [|apply verdict_mailto].
    unfold verdict. rewrite EW, EH, EWw, EM, EE. reflexivity. }
  destruct (re_match re_tel s) eqn:ET.
  { subst t. rewrite add_prefix_phone.
    destruct (startswith (lit "tel:") (lower s)).
    - unfold verdict. rewrite EW, EH, EWw, EM, EE, ET. reflexivity.
    - apply verdict_tel; [exact Hs|]. intros Hes.
      apply email_shape_tel in Hes as [Hes|[t' E]].
      + rewrite (email_shape_dollar s Hs Hes) in EE. discriminate.
      + rewrite E in ET. apply re_match_ilit, iprefix_head in ET.
        vm_compute in ET. discriminate. }
  destruct (re_match_dollar re_phone s) eqn:EP.
  { subst t. rewrite add_prefix_phone.
    destruct (startswith (lit "tel:") (lower s)).
    - unfold verdict. rewrite EW, EH, EWw, EM, EE, ET, EP. reflexivity.
    - apply verdict_tel; [exact Hs|]. intros Hes.
      apply email_shape_tel in Hes as [Hes|[t' E]].
      + rewrite (email_shape_dollar s Hs Hes) in EE. discriminate.
      + rewrite (re_match_dollar_stripped _ _ Hs) in EP. apply fullmatch_phone in EP.
        rewrite E in EP. exact (at_sign_no_phone t' EP). }
  subst t. change (add_prefix s (lit "text")) with s.
  unfold verdict. rewrite EW, EH, EWw, EM, EE, ET, EP. reflexivity.
Qed.


(** ** What normalisation adds *)

Lemma add_prefix_shape c qr_type :
  exists p, In p schemes /\ add_prefix c qr_type = p ++ c /\
    (In qr_type [lit "url"; lit "email"; lit "phone"] -> c = [] -> p <> []).
Proof.
  unfold add_prefix, schemes.
  destruct (str_eqb qr_type (lit "url")) eqn:E1.
  { destruct (re_match re_http c) eqn:E.
    - exists []. simpl. split; [auto|]. split; [reflexivity|]. intros _ ->. discriminate.
    - exists (lit "https://"). simpl. split; [auto|]. split; [reflexivity|]. discriminate. }
  destruct (str_eqb qr_type (lit "email")) eqn:E2.
  { destruct (startswith (lit "mailto:") (lower c)) eqn:E.
    - exists []. simpl. split; [auto|]. split; [reflexivity|]. intros _ ->. discriminate.
    - exists (lit "mailto:"). simpl. split; [auto 6|]. split; [reflexivity|]. discriminate. }
  destruct (str_eqb qr_type (lit "phone")) eqn:E3.
  { destruct (startswith (lit "tel:") (lower c)) eqn:E.
    - exists []. simpl. split; [auto|]. split; [reflexivity|]. intros _ ->. discriminate.
    - exists (lit "tel:"). simpl. split; [auto 6|]. split; [reflexivity|]. discriminate. }
  exists []. simpl. split; [auto|]. split; [reflexivity|].
  intros [<-|[<-|[<-|[]]]]; discriminate.
Qed.

Lemma strip_nil_iff c : strip c = [] <-> Forall (fun ch => isspace ch = true) c.
Proof.
  split; [|apply strip_spaces].
  intros E. destruct (strip_split c) as (ws1 & ws2 & Ec & H1 & H2).
  rewrite E in Ec. rewrite Ec. apply Forall_app. auto.
Qed.

(** X2.  Normalising twice with the same type is normalising once, for
    every type. *)
Theorem format_content_twice content qr_type :
  format_content (format_content content qr_type) qr_type
  = format_content content qr_type.
Proof.
  rewrite !format_content_add_prefix.
  rewrite (stripped_strip (add_prefix _ _))
    by (apply add_prefix_stripped, strip_stripped).
  apply add_prefix_idempotent, strip_stripped.
Qed.

(** X3.  The encoded content is the stripped content behind at most one
    scheme prefix: with type url it starts with [http://] or
    [https://], with type email with [mailto:], with type phone with
    [tel:] (case ignored), and with any other type string nothing is
    put in front. *)
Theorem format_content_scheme content qr_type :
  (exists p, In p schemes /\ format_content content qr_type = p ++ strip content) /\
  (qr_type = lit "url" ->
   iprefix "http://" (format_content content qr_type) \/
   iprefix "https://" (format_content content qr_type)) /\
  (qr_type = lit "email" -> lower_prefix "mailto:" (format_content content qr_type)) /\
  (qr_type = lit "phone" -> lower_prefix "tel:" (format_content content qr_type)) /\
  (qr_type <> lit "url" -> qr_type <> lit "email" -> qr_type <> lit "phone" ->
   format_content content qr_type = strip content).
Proof.
  rewrite format_content_add_prefix. set (s := strip content).
  split; [|split; [|split; [|split]]].
  - destruct (add_prefix_shape s qr_type) as (p & Hp & E & _). eauto.
  - intros ->. rewrite add_prefix_url. apply re_match_http.
    destruct (re_match re_http s) eqn:E; [exact E | apply re_match_https].
  - intros ->. rewrite add_prefix_email. unfold lower_prefix.
    destruct (startswith (lit "mailto:") (lower s)) eqn:E; [exact E | apply lower_mailto].
  - intros ->. rewrite add_prefix_phone. unfold lower_prefix.
    destruct (startswith (lit "tel:") (lower s)) eqn:E; [exact E | apply lower_tel].
  - intros H1 H2 H3. unfold add_prefix.
    destruct (str_eqb qr_type (lit "url")) eqn:E1; [apply str_eqb_eq in E1; contradiction|].
    destruct (str_eqb qr_type (lit "email")) eqn:E2; [apply str_eqb_eq in E2; contradiction|].
    destruct (str_eqb qr_type (lit "phone")) eqn:E3; [apply str_eqb_eq in E3; contradiction|].
    reflexivity.
Qed.

(** X4.  With the type detected, the encoded content is empty exactly
    when the content is empty or white space only; with type url,
    email or phone it is never empty. *)
Theorem encoded_empty content :
  (format_content content (detect_type content) = [] <->
   Forall (fun ch => isspace ch = true) content) /\
  (forall qr_type, In qr_type [lit "url"; lit "email"; lit "phone"] ->
     format_content content qr_type <> []).
Proof.
  split.
  - rewrite format_content_add_prefix, detect_type_verdict, <- strip_nil_iff.
    split.
    + intros E. destruct (add_prefix_shape (strip content) (verdict (strip content)))
        as (p & _ & Ep & _).
      rewrite Ep in E. apply app_eq_nil in E as [_ E]. exact E.
    + intros ->. reflexivity.
  - intros qr_type Hin E. rewrite format_content_add_prefix in E.
    destruct (add_prefix_shape (strip content) qr_type) as (p & _ & Ep & Hne).
    rewrite Ep in E. apply app_eq_nil in E as [E1 E2]. exact (Hne Hin E2 E1).
Qed.

(** ** Prefixes in any letter case *)

(** Comparisons that the context settles. *)
Ltac zdecide :=
  repeat (cbn [andb orb negb];
    match goal with
    | |- context [?a <=? ?b] =>
        first [ rewrite (proj2 (Z.leb_le a b)) by lia
              | rewrite (proj2 (Z.leb_gt a b)) by lia ]
    | |- context [?a <? ?b] =>
        first [ rewrite (proj2 (Z.ltb_lt a b)) by lia
              | rewrite (proj2 (Z.ltb_ge a b)) by lia ]
    | |- context [?a =? ?b] =>
        first [ rewrite (proj2 (Z.eqb_eq a b)) by lia
              | rewrite (proj2 (Z.eqb_neq a b)) by lia ]
    end); cbn [andb orb negb].

Lemma any_case_literal l ch :
  0 <= l < 128 -> ascii_lower ch = ascii_lower l -> literal_ignorecase l ch = true.
Proof.
  intros Hl H. apply ascii_lower_eq in H.
  unfold literal_ignorecase, ascii_lower, ascii_isalpha, ascii_isupper, ascii_islower,
    is_ascii, in_range.
  destruct H as [->|[[-> ?]|[-> ?]]]; zdecide; try reflexivity.
  destruct ((65 <=? l) && (l <=? 90) || (97 <=? l) && (l <=? 122)); reflexivity.
Qed.

Lemma any_case_upper_char l ch :
  0 <= l < 128 -> ascii_lower ch = ascii_lower l -> upper_char ch = [ascii_upper l].
Proof.
  intros Hl H. apply ascii_lower_eq in H.
  unfold upper_char, is_ascii, ascii_upper, ascii_islower, in_range.
  destruct H as [->|[[-> ?]|[-> ?]]]; zdecide; try reflexivity; f_equal; lia.
Qed.

Lemma any_case_iprefix p c :
  Forall (fun l => 0 <= l < 128) (lit p) -> any_case_prefix p c -> iprefix p c.
Proof.
  intros Hp (h & t & -> & F). exists h, t. split; [reflexivity|].
  revert Hp. induction F as [|l ch ls h Hl _ IH]; intros Hp; [constructor|].
  inversion Hp; subst. constructor; [apply any_case_literal; assumption | auto].
Qed.

Lemma any_case_upper p c :
  Forall (fun l => 0 <= l < 128) (lit p) -> any_case_prefix p c ->
  exists t, upper c = map ascii_upper (lit p) ++ t.
Proof.
  intros Hp (h & t & -> & F). exists (upper t).
  unfold upper. rewrite flat_map_app. f_equal.
  revert Hp. induction F as [|l ch ls h Hl _ IH]; intros Hp; [reflexivity|].
  inversion Hp; subst. simpl. rewrite (any_case_upper_char l ch) by assumption.
  simpl. f_equal. auto.
Qed.

Ltac ascii_literal :=
  eval_lits; repeat (constructor; [lia|]); constructor.

(** X5.  Content that, stripped, starts with [http://], [https://] or
    [www.] in any letter case is classified as url: the wifi rule
    cannot take it first. *)
Theorem url_prefix_detected content :
  any_case_prefix "http://" (strip content) \/
  any_case_prefix "https://" (strip content) \/
  any_case_prefix "www." (strip content) ->
  detect_type content = lit "url".
Proof.
  rewrite detect_type_verdict. set (s := strip content). unfold verdict.
  intros [H|[H|H]].
  - destruct (any_case_upper "http://" s ltac:(ascii_literal) H) as (t & ->).
    change (startswith (lit "WIFI:") (map ascii_upper (lit "http://") ++ t)) with false.
    apply any_case_iprefix in H; [|ascii_literal].
    rewrite (proj2 (re_match_http s)) by auto. reflexivity.
  - destruct (any_case_upper "https://" s ltac:(ascii_literal) H) as (t & ->).
    change (startswith (lit "WIFI:") (map ascii_upper (lit "https://") ++ t)) with false.
    apply any_case_iprefix in H; [|ascii_literal].
    rewrite (proj2 (re_match_http s)) by auto. reflexivity.
  - destruct (any_case_upper "www." s ltac:(ascii_literal) H) as (t & ->).
    change (startswith (lit "WIFI:") (map ascii_upper (lit "www.") ++ t)) with false.
    apply any_case_iprefix in H; [|ascii_literal].
    apply re_match_ilit in H. unfold re_www. rewrite H.
    destruct (re_match re_http s); reflexivity.
Qed.


Lemma any_case_head p c :
  any_case_prefix p c ->
  match lit p, c with
  | l :: _, ch :: _ => ascii_lower ch = ascii_lower l
  | [], _ => True
  | _ :: _, [] => False
  end.
Proof.
  intros (h & t & -> & F). destruct F as [|l ch ls h Hl _]; simpl; [exact I | exact Hl].
Qed.

Lemma not_email_dollar s :
  stripped s -> ~ email_shape s -> re_match_dollar re_email s = false.
Proof.
  intros Hs Hne. rewrite (re_match_dollar_stripped _ _ Hs).
  destruct (fullmatch re_email s) eqn:E; [|reflexivity].
  apply fullmatch_email in E. contradiction.
Qed.

(** X6.  Content that, stripped, starts with [mailto:] in any letter
    case is classified as email.  Content that starts with [tel:] is
    classified as phone unless it has the shape of an address, which
    the email rule takes first. *)
Theorem scheme_prefix_detected content :
  (any_case_prefix "mailto:" (strip content) -> detect_type content = lit "email") /\
  (any_case_prefix "tel:" (strip content) ->
   (email_shape (strip content) -> detect_type content = lit "email") /\
   (~ email_shape (strip content) -> detect_type content = lit "phone")).
Proof.
  rewrite detect_type_verdict. pose proof (strip_stripped content) as Hs.
  remember (strip content) as s eqn:Es. clear Es. split.
  - intros H. pose proof (any_case_head _ _ H) as Hh.
    apply any_case_iprefix in H; [|ascii_literal]. apply re_match_ilit in H.
    destruct s as [|ch r]; [destruct Hh|].
    change (ascii_lower ch = ascii_lower 109) in Hh.
    unfold verdict. letter_cases Hh.
    + change (startswith (lit "WIFI:") (upper (109 :: r))) with false.
      assert (H1 : re_match re_http (109 :: r) = false) by head_mismatch.
      assert (H2 : re_match re_www (109 :: r) = false) by head_mismatch.
      unfold re_mailto. rewrite H1, H2, H. reflexivity.
    + change (startswith (lit "WIFI:") (upper (109 - 32 :: r))) with false.
      assert (H1 : re_match re_http (109 - 32 :: r) = false) by head_mismatch.
      assert (H2 : re_match re_www (109 - 32 :: r) = false) by head_mismatch.
      unfold re_mailto. rewrite H1, H2, H. reflexivity.
  - intros H. pose proof (any_case_head _ _ H) as Hh.
    apply any_case_iprefix in H; [|ascii_literal]. apply re_match_ilit in H.
    assert (Hv : verdict s = if re_match_dollar re_email s then lit "email" else lit "phone").
    { destruct s as [|ch r]; [destruct Hh|].
      change (ascii_lower ch = ascii_lower 116) in Hh.
      unfold verdict. letter_cases Hh.
      + change (startswith (lit "WIFI:") (upper (116 :: r))) with false.
        assert (H1 : re_match re_http (116 :: r) = false) by head_mismatch.
        assert (H2 : re_match re_www (116 :: r) = false) by head_mismatch.
        assert (H3 : re_match re_mailto (116 :: r) = false) by head_mismatch.
        unfold re_tel. rewrite H1, H2, H3, H. reflexivity.
      + change (startswith (lit "WIFI:") (upper (116 - 32 :: r))) with false.
        assert (H1 : re_match re_http (116 - 32 :: r) = false) by head_mismatch.
        assert (H2 : re_match re_www (116 - 32 :: r) = false) by head_mismatch.
        assert (H3 : re_match re_mailto (116 - 32 :: r) = false) by head_mismatch.
        unfold re_tel. rewrite H1, H2, H3, H. reflexivity. }
    rewrite Hv. split; intros He.
    + rewrite (email_shape_dollar s Hs He). reflexivity.
    + rewrite (not_email_dollar s Hs He). reflexivity.
Qed.

(** ** Telephone numbers *)

Lemma phone_shape_head s :
  stripped s -> phone_shape s -> Forall (fun ch => is_ascii ch = true) s ->
  exists f r, s = f :: r /\ phone_head f.
Proof.
  intros [Hl _] (body & E & Hlen & F) Ha. eval_lits.
  destruct E as [->| ->].
  - destruct body as [|f r]; [simpl in Hlen; lia|].
    exists f, r. split; [reflexivity|].
    apply Forall_inv in F, Ha. specialize (Hl f r eq_refl).
    unfold phone_head. destruct F as [F|[F|[F|[F|F]]]]; eval_lits; auto 6.
    + unfold isdecimal in F. rewrite Ha in F. unfold ascii_isdigit, in_range in F.
      apply andb_true_iff in F as [F1 F2]. apply Z.leb_le in F1, F2. auto.
    + congruence.
  - exists 43, body. split; [reflexivity | left; reflexivity].
Qed.

Lemma phone_shape_no_email s : phone_shape s -> ~ email_shape s.
Proof.
  intros (body & E & _ & F) (l & d & t & Es & _). eval_lits.
  assert (Hin : In 64 body).
  { destruct E as [->| ->].
    - rewrite Es. apply in_or_app. right. left. reflexivity.
    - destruct l as [|x l]; [discriminate|]. injection Es as _ ->.
      apply in_or_app. right. left. reflexivity. }
  rewrite List.Forall_forall in F. specialize (F 64 Hin).
  destruct F as [F|[F|[F|[F|F]]]]; vm_compute in F; discriminate.
Qed.

Lemma phone_head_no_wifi f r :
  phone_head f -> startswith (lit "WIFI:") (upper (f :: r)) = false.
Proof.
  intros Hf. unfold upper. cbn [flat_map]. unfold upper_char, is_ascii.
  assert (Ha : (f <? 128) = true) by (apply Z.ltb_lt; unfold phone_head in Hf; lia).
  rewrite Ha. eval_lits. cbn [app startswith].
  unfold ascii_upper, ascii_islower, in_range. unfold phone_head in Hf.
  zdecide. reflexivity.
Qed.

Lemma phone_head_no_letter l f :
  97 <= l <= 122 -> phone_head f -> literal_ignorecase l f = false.
Proof.
  intros Hl Hf. unfold phone_head in Hf.
  unfold literal_ignorecase, ascii_lower, ascii_isalpha, ascii_isupper, ascii_islower,
    is_ascii, in_range.
  zdecide. reflexivity.
Qed.

Lemma phone_head_no_scheme p f r :
  match lit p with l :: _ => 97 <= l <= 122 | [] => False end ->
  phone_head f -> ~ iprefix p (f :: r).
Proof.
  intros Hp Hf H. apply iprefix_head in H. destruct (lit p) as [|l ls]; [exact Hp|].
  rewrite (phone_head_no_letter l f Hp Hf) in H. discriminate.
Qed.

(** X7.  ASCII content that, stripped, is an optional plus sign and
    seven or more digits, blanks, hyphens and parentheses is classified
    as phone: no earlier rule takes it. *)
Theorem phone_shape_detected content :
  Forall (fun ch => is_ascii ch = true) content ->
  phone_shape (strip content) ->
  detect_type content = lit "phone".
Proof.
  intros Ha Hp. rewrite detect_type_verdict.
  pose proof (strip_stripped content) as Hs.
  apply (strip_Forall (fun ch => is_ascii ch = true)) in Ha.
  remember (strip content) as s eqn:Es. clear Es.
  destruct (phone_shape_head s Hs Hp Ha) as (f & r & -> & Hf).
  assert (Hno : forall p, match lit p with l :: _ => 97 <= l <= 122 | [] => False end ->
                re_match (ILit p) (f :: r) = false).
  { intros p Hl. destruct (re_match (ILit p) (f :: r)) eqn:E; [|reflexivity].
    apply re_match_ilit in E. destruct (phone_head_no_scheme p f r Hl Hf E). }
  assert (H1 : re_match re_http (f :: r) = false).
  { destruct (re_match re_http (f :: r)) eqn:E; [|reflexivity].
    exfalso. apply re_match_http in E as [E|E].
    - refine (phone_head_no_scheme "http://" f r _ Hf E). vm_compute. split; discriminate.
    - refine (phone_head_no_scheme "https://" f r _ Hf E). vm_compute. split; discriminate. }
  unfold verdict, re_www, re_mailto, re_tel.
  rewrite (phone_head_no_wifi f r Hf), H1.
  rewrite !Hno by (vm_compute; split; discriminate).
  rewrite (not_email_dollar _ Hs (phone_shape_no_email _ Hp)).
  rewrite (re_match_dollar_stripped _ _ Hs), (proj2 (fullmatch_phone _) Hp). reflexivity.
Qed.


(** * Further properties of the file names *)

Lemma slug_cased_nil label :
  Forall (fun ch => isword ch = false /\ ch <> chr "-") label -> slug_cased label = [].
Proof.
  intros H. unfold slug_cased.
  assert (Hsp : Forall (fun ch => isspace ch = true) (List.filter keep_char label)).
  { apply List.Forall_forall. intros ch Hin. apply filter_In in Hin as [Hin Hk].
    rewrite List.Forall_forall in H. destruct (H ch Hin) as [Hw Hh].
    unfold keep_char in Hk. rewrite Hw in Hk.
    apply orb_true_iff in Hk as [Hk|Hk]; [exact Hk|].
    apply Z.eqb_eq in Hk. contradiction. }
  rewrite (strip_spaces _ (take_Forall _ 50 _ Hsp)). reflexivity.
Qed.

(** X8.  A label without any word character or hyphen (the empty label,
    punctuation, white space) gives the file name [qr-code_<date>]. *)
Theorem make_filename_fallback today label :
  Forall (fun ch => isword ch = false /\ ch <> chr "-") label ->
  make_filename today label = lit "qr-code_" ++ isoformat today.
Proof.
  intros H. unfold make_filename. rewrite make_filename_safe_slug.
  unfold slug. rewrite (slug_cased_nil label H). reflexivity.
Qed.

Lemma slug_char_facts ch :
  slug_char ch = true ->
  is_ascii ch = true /\ keep_char ch = true /\ isspace ch = false /\ ascii_lower ch = ch /\
  ch <> 47 /\ ch <> 46.
Proof.
  unfold slug_char, ascii_islower, ascii_isdigit, in_range. eval_lits. intros H.
  assert (Hc : 97 <= ch <= 122 \/ 48 <= ch <= 57 \/ ch = 95 \/ ch = 45).
  { rewrite !orb_true_iff, !andb_true_iff, !Z.leb_le, !Z.eqb_eq in H. lia. }
  clear H.
  unfold keep_char, isword, isspace, is_ascii, ascii_isspace, ascii_isalpha, ascii_isupper,
    ascii_islower, ascii_isdigit, ascii_lower, ascii_isupper, in_range. eval_lits.
  repeat split; try lia; destruct Hc as [Hc|[Hc|[Hc|Hc]]]; zdecide; reflexivity.
Qed.

Lemma filter_all (f : Z -> bool) s :
  Forall (fun ch => f ch = true) s -> List.filter f s = s.
Proof. induction 1 as [|ch s Hc _ IH]; simpl; [|rewrite Hc, IH]; reflexivity. Qed.

Lemma collapse_no_space b s :
  Forall (fun ch => isspace ch = false) s -> collapse b s = s.
Proof.
  intros H. revert b. induction H as [|ch s Hc _ IH]; intros b; simpl; [reflexivity|].
  rewrite Hc, IH. reflexivity.
Qed.

Lemma map_fixed (f : Z -> Z) s : Forall (fun ch => f ch = ch) s -> map f s = s.
Proof. induction 1 as [|ch s Hc _ IH]; simpl; [|rewrite Hc, IH]; reflexivity. Qed.

(** A string that looks like a slug is its own slug. *)
Lemma slug_fixed s :
  Forall (fun ch => slug_char ch = true) s -> (length s <= 50)%nat -> s <> [] ->
  slug s = s.
Proof.
  intros H Hlen Hne.
  assert (Hk : Forall (fun ch => keep_char ch = true) s)
    by (eapply Forall_impl; [exact H|]; intros ch Hc; apply slug_char_facts, Hc).
  assert (Hs : Forall (fun ch => isspace ch = false) s)
    by (eapply Forall_impl; [exact H|]; intros ch Hc; apply slug_char_facts, Hc).
  assert (Ha : Forall (fun ch => is_ascii ch = true) s)
    by (eapply Forall_impl; [exact H|]; intros ch Hc; apply slug_char_facts, Hc).
  assert (Hl : Forall (fun ch => ascii_lower ch = ch) s)
    by (eapply Forall_impl; [exact H|]; intros ch Hc; apply slug_char_facts, Hc).
  unfold slug, slug_cased.
  rewrite (filter_all _ _ Hk), take_ge by exact Hlen.
  rewrite (stripped_strip _ (no_space_stripped _ Hs)), (collapse_no_space _ _ Hs).
  unfold lower. rewrite (lower_from_ascii _ _ Ha), (map_fixed _ _ Hl).
  destruct s; [congruence | reflexivity].
Qed.

(** X9.  For a label of ASCII characters the slug is a fixed point:
    making a file name out of a slug gives the slug back. *)
Theorem make_filename_safe_idempotent label :
  Forall (fun ch => is_ascii ch = true) label ->
  make_filename_safe (make_filename_safe label) = make_filename_safe label.
Proof.
  intros Ha. rewrite !make_filename_safe_slug.
  destruct (slug_ascii label Ha) as [Hlen Hc].
  apply slug_fixed; [exact Hc | exact Hlen | apply slug_nonempty].
Qed.

Lemma digit_slug_char ch : is_digit_char ch -> slug_char ch = true.
Proof.
  unfold is_digit_char, slug_char, ascii_islower, ascii_isdigit, in_range. intros H.
  zdecide. reflexivity.
Qed.

Lemma isoformat_chars today :
  valid_date today -> Forall (fun ch => slug_char ch = true) (isoformat today).
Proof.
  intros H. destruct (isoformat_form today H) as (y & m & d & -> & _ & _ & _ & Fy & Fm & Fd).
  assert (Hd : forall s, Forall is_digit_char s -> Forall (fun ch => slug_char ch = true) s).
  { intros s Hs. eapply Forall_impl; [exact Hs|]. apply digit_slug_char. }
  repeat (apply Forall_app; split); auto; repeat constructor.
Qed.

Lemma make_filename_slug_chars today label :
  Forall (fun ch => is_ascii ch = true) label -> valid_date today ->
  Forall (fun ch => slug_char ch = true) (make_filename today label).
Proof.
  intros Ha Hd. unfold make_filename. rewrite make_filename_safe_slug.
  apply Forall_app. split; [apply slug_ascii, Ha|].
  apply Forall_app. split; [repeat constructor | apply isoformat_chars, Hd].
Qed.

Lemma os_path_join_relative a b :
  startswith (lit "/") b = false -> os_path_join a b = dir_prefix a ++ b.
Proof.
  intros H. unfold os_path_join, dir_prefix. rewrite H.
  destruct (str_eqb a [] || endswith (lit "/") a); [reflexivity|].
  rewrite <- app_assoc. reflexivity.
Qed.

Lemma stem_chars base_name j :
  Forall (fun ch => slug_char ch = true) base_name ->
  Forall (fun ch => slug_char ch = true) (stem base_name j).
Proof.
  intros H. destruct j as [|i]; [exact H|]. unfold stem, str_of_nat.
  apply Forall_app. split; [exact H|].
  apply Forall_app. split; [repeat constructor|].
  eapply Forall_impl; [apply uint_chars_digits | apply digit_slug_char].
Qed.

(** X10.  For an ASCII label and a calendar date the whole file name,
    date included, consists of lower-case letters, digits, underscores
    and hyphens; so no candidate stem holds a slash or a dot, and every
    candidate path is the archive directory, a separator and the stem
    with its extension. *)
Theorem make_filename_in_archive today label archive_dir j :
  Forall (fun ch => is_ascii ch = true) label -> valid_date today ->
  let base_name := make_filename today label in
  Forall (fun ch => slug_char ch = true) base_name /\
  ~ In 47 (stem base_name j) /\ ~ In 46 (stem base_name j) /\
  candidate archive_dir base_name j
  = (dir_prefix archive_dir ++ stem base_name j ++ lit ".png",
     dir_prefix archive_dir ++ stem base_name j ++ lit ".pdf").
Proof.
  intros Ha Hd base_name.
  pose proof (make_filename_slug_chars today label Ha Hd) as Hc. fold base_name in Hc.
  pose proof (stem_chars base_name j Hc) as Hst.
  assert (Hno : forall x, x = 47 \/ x = 46 -> ~ In x (stem base_name j)).
  { intros x Hx Hin. rewrite List.Forall_forall in Hst.
    destruct (slug_char_facts x (Hst x Hin)) as (_ & _ & _ & _ & H1 & H2). lia. }
  split; [exact Hc|]. split; [apply Hno; auto|]. split; [apply Hno; auto|].
  assert (Hrel : forall ext, startswith (lit "/") (stem base_name j ++ ext) = false
                             \/ stem base_name j = []).
  { intros ext. destruct (stem base_name j) as [|x s] eqn:Es; [right; reflexivity|].
    left. apply Forall_inv in Hst. apply slug_char_facts in Hst.
    change (startswith (lit "/") ((x :: s) ++ ext)) with ((47 =? x) && true).
    zdecide. reflexivity. }
  assert (Hne : stem base_name j <> []).
  { unfold base_name, make_filename, stem. pose proof (slug_nonempty label) as Hn.
    rewrite make_filename_safe_slug.
    destruct (slug label); [congruence|]. destruct j; discriminate. }
  unfold candidate. f_equal; apply os_path_join_relative;
    destruct (Hrel (lit ".png")), (Hrel (lit ".pdf")); congruence.
Qed.


(** * Further properties of the output paths *)

Lemma startswith_slash c x : startswith (lit "/") (c :: x) = (47 =? c).
Proof. change (startswith (lit "/") (c :: x)) with ((47 =? c) && true). apply andb_true_r. Qed.

Lemma os_path_join_absolute a b : startswith (lit "/") b = true -> os_path_join a b = b.
Proof. intros H. unfold os_path_join. rewrite H. reflexivity. Qed.

Lemma os_path_join_base archive_dir base_name :
  exists Q, forall c x, c <> 47 ->
    os_path_join archive_dir (base_name ++ c :: x) = Q ++ c :: x.
Proof.
  destruct base_name as [|b bs].
  - exists (dir_prefix archive_dir). intros c x Hc. cbn [app].
    apply os_path_join_relative. rewrite startswith_slash. apply Z.eqb_neq. lia.
  - destruct (47 =? b) eqn:Eb.
    + exists (b :: bs). intros c x _. apply os_path_join_absolute.
      cbn [app]. rewrite startswith_slash. exact Eb.
    + exists (dir_prefix archive_dir ++ b :: bs). intros c x _.
      rewrite <- app_assoc. apply os_path_join_relative.
      cbn [app]. rewrite startswith_slash. exact Eb.
Qed.

Lemma stem_suffix_stem base_name j : stem base_name j = base_name ++ stem_suffix j.
Proof. destruct j; simpl; [rewrite app_nil_r|]; reflexivity. Qed.

(** Every candidate is one fixed string followed by the suffix of its
    stem and the extension. *)
Lemma candidate_form archive_dir base_name :
  exists Q, forall j,
    candidate archive_dir base_name j
    = (Q ++ stem_suffix j ++ lit ".png", Q ++ stem_suffix j ++ lit ".pdf").
Proof.
  destruct (os_path_join_base archive_dir base_name) as (Q & HQ).
  exists Q. intros j. unfold candidate. rewrite stem_suffix_stem, <- !app_assoc.
  destruct j as [|i].
  - simpl. f_equal; apply HQ; discriminate.
  - unfold stem_suffix. rewrite <- !app_assoc. f_equal; apply HQ; discriminate.
Qed.

Lemma stem_suffix_inj i j (e1 e2 : list Z) :
  stem_suffix i ++ 46 :: e1 = stem_suffix j ++ 46 :: e2 -> i = j /\ e1 = e2.
Proof.
  destruct i as [|i], j as [|j]; simpl; intros E; try discriminate.
  - injection E as ->. auto.
  - injection E as E. apply digits_dot_inj in E as [E ->]; try apply uint_chars_digits.
    apply str_of_nat_inj in E. split; [lia | reflexivity].
Qed.

(** The paths of different candidates are different. *)
Lemma candidate_disjoint archive_dir base_name i j p :
  (p = fst (candidate archive_dir base_name i) \/
   p = snd (candidate archive_dir base_name i)) ->
  (p = fst (candidate archive_dir base_name j) \/
   p = snd (candidate archive_dir base_name j)) ->
  i = j.
Proof.
  destruct (candidate_form archive_dir base_name) as (Q & HQ).
  rewrite !HQ. cbn [fst snd].
  intros [->| ->] [E|E]; apply app_inv_head in E; apply stem_suffix_inj in E as [E _];
    exact E.
Qed.

Lemma os_path_exists_write p d q :
  os_path_exists (write_file p d) q = true <-> q = p \/ os_path_exists d q = true.
Proof.
  unfold write_file. destruct (os_path_exists d p) eqn:Ep.
  - split; [auto|]. intros [->|H]; assumption.
  - unfold os_path_exists at 1, create_file. cbn [files].
    rewrite bool_decide_eq_true. destruct (decide (p = q)) as [<-|Hne].
    + rewrite lookup_insert_eq. split; eauto.
    + rewrite lookup_insert_ne by exact Hne. unfold os_path_exists.
      rewrite bool_decide_eq_true. split; [auto|]. intros [->|H]; [congruence | exact H].
Qed.

Lemma os_path_exists_written pp d q :
  os_path_exists (written pp d) q = true <->
  q = fst pp \/ q = snd pp \/ os_path_exists d q = true.
Proof. unfold written. rewrite !os_path_exists_write. tauto. Qed.

Lemma free_written pp d qq :
  free (written pp d) qq <->
  free d qq /\ fst qq <> fst pp /\ fst qq <> snd pp /\ snd qq <> fst pp /\ snd qq <> snd pp.
Proof.
  unfold free.
  pose proof (os_path_exists_written pp d (fst qq)) as H1.
  pose proof (os_path_exists_written pp d (snd qq)) as H2.
  destruct (os_path_exists (written pp d) (fst qq)),
           (os_path_exists (written pp d) (snd qq)),
           (os_path_exists d (fst qq)), (os_path_exists d (snd qq));
    intuition congruence.
Qed.

(** With fuel beyond the first free stem the loop returns its pair. *)
Lemma resolve_paths_at d archive_dir base_name j fuel :
  free d (candidate archive_dir base_name j) ->
  (forall i, (i < j)%nat -> ~ free d (candidate archive_dir base_name i)) ->
  (j < fuel)%nat ->
  resolve_paths fuel d archive_dir base_name = Some (candidate archive_dir base_name j).
Proof.
  intros Hfree Hmin Hfuel. unfold resolve_paths.
  apply (resolve_loop_first_free d archive_dir base_name j 0 fuel); auto.
  intros i Hi. apply Hmin. lia.
Qed.

(** X11.  Once the files of the returned pair are written, resolving the
    same names again returns a later stem, never the same pair; it is
    the very next stem when that one is unused. *)
Theorem resolve_paths_moves_on d archive_dir base_name j :
  free d (candidate archive_dir base_name j) ->
  (forall i, (i < j)%nat -> ~ free d (candidate archive_dir base_name i)) ->
  let d' := written (candidate archive_dir base_name j) d in
  exists j',
    (j < j')%nat /\
    resolve_paths (size (files d') + 2) d' archive_dir base_name
    = Some (candidate archive_dir base_name j') /\
    free d' (candidate archive_dir base_name j') /\
    (free d (candidate archive_dir base_name (S j)) -> j' = S j).
Proof.
  intros Hfree Hmin d'.
  destruct (first_free_candidate d' archive_dir base_name) as (j' & Hj' & Hf' & Hmin').
  assert (Hlt : (j < j')%nat).
  { destruct (Nat.lt_ge_cases j j') as [H|H]; [exact H|]. exfalso.
    apply free_written in Hf' as (Hf & Hne).
    destruct (Nat.eq_dec j' j) as [->|Hneq]; [tauto|].
    apply (Hmin j'); [lia | exact Hf]. }
  exists j'. split; [exact Hlt|]. split; [|split; [exact Hf'|]].
  - apply resolve_paths_at; [exact Hf' | exact Hmin' | lia].
  - intros Hnext. destruct (Nat.eq_dec j' (S j)) as [E|Hneq]; [exact E|]. exfalso.
    apply (Hmin' (S j)); [lia|]. apply free_written. split; [exact Hnext|].
    pose proof (candidate_disjoint archive_dir base_name (S j) j) as Hd.
    repeat split; intros E.
    + specialize (Hd _ (or_introl eq_refl) (or_introl E)). lia.
    + specialize (Hd _ (or_introl eq_refl) (or_intror E)). lia.
    + specialize (Hd _ (or_intror eq_refl) (or_introl E)). lia.
    + specialize (Hd _ (or_intror eq_refl) (or_intror E)). lia.
Qed.


(** * Further properties of the PDF step *)

Lemma unlink_created_files p d :
  os_path_exists d p = false -> files (os_unlink p (create_file p d)) = files d.
Proof.
  intros H. unfold os_unlink, create_file. cbn [files].
  apply delete_insert_id. unfold os_path_exists in H.
  apply bool_decide_eq_false in H. destruct (files d !! p) eqn:E; [|reflexivity].
  exfalso. apply H. eauto.
Qed.


Lemma write_file_keeps p d q i :
  files d !! q = Some i -> files (write_file p d) !! q = Some i.
Proof.
  intros H. unfold write_file. destruct (os_path_exists d p) eqn:Ep; [exact H|].
  unfold create_file. cbn [files]. rewrite lookup_insert_ne; [exact H|].
  intros ->. unfold os_path_exists in Ep. apply bool_decide_eq_false in Ep.
  apply Ep. eauto.
Qed.

Lemma write_file_exists p d : os_path_exists (write_file p d) p = true.
Proof. apply os_path_exists_write. left. reflexivity. Qed.




(** The disk behind [create_pdf]: as before; or as before with the
    temporary file, which a raising [os.unlink] left; or as before with
    the output path written. *)
Lemma create_pdf_disk o output_path d :
  let st := snd (create_pdf o output_path (entry d)) in
  files (fs st) = files d \/
  (unlink_raises o = true /\ exists p, makes_tmp o d p /\ fs st = create_file p d) \/
  (~ fails_before_output o d /\ output_writes o = true /\
   exists d', files d' = files d /\ fs st = write_file output_path d').
Proof.
  rewrite create_pdf_run. unfold fails_before_output, makes_tmp.
  destruct (setup_raises o); [left; reflexivity|].
  destruct (tmp_stem o) as [stem|]; [|left; reflexivity].
  cbv zeta.
  destruct (os_path_exists d (stem ++ lit ".png")) eqn:Ex; [left; reflexivity|].
  destruct (unlink_raises o).
  { right. left. split; [reflexivity|]. exists (stem ++ lit ".png").
    cbn [snd bound fs]. split; [|reflexivity].
    split; [reflexivity|]. exists stem. auto. }
  destruct (save_raises o), (close_raises o), (image_raises o), (caption_raises o);
    cbn [orb snd bound fs]; try (left; apply unlink_created_files, Ex).
  destruct (output_writes o); [|left; apply unlink_created_files, Ex].
  right. right. split; [intuition congruence|]. split; [reflexivity|].
  eexists. split; [apply unlink_created_files, Ex | reflexivity].
Qed.

(** The disk behind [create_pdf] keeps what was there. *)
Lemma create_pdf_keeps o output_path d q i :
  files d !! q = Some i ->
  files (fs (snd (create_pdf o output_path (entry d)))) !! q = Some i.
Proof.
  intros H.
  destruct (create_pdf_disk o output_path d)
    as [E|[(_ & p & (_ & stem & _ & _ & Hp) & E)|(_ & _ & d' & Ed & E)]].
  - rewrite E. exact H.
  - rewrite E. pose proof (write_file_keeps p d q i H) as K.
    unfold write_file in K. rewrite Hp in K. exact K.
  - rewrite E. apply write_file_keeps. rewrite Ed. exact H.
Qed.


(** [create_pdf] returns only when no call raised, and then the PDF
    that was written is there. *)
Lemma create_pdf_returned o output_path d u st :
  create_pdf o output_path (entry d) = (Returned u, st) ->
  ~ fails_before_output o d /\ output_raises o = false /\
  (output_writes o = true -> os_path_exists (fs st) output_path = true).
Proof.
  rewrite create_pdf_run. unfold fails_before_output. intros Hrun.
  destruct (setup_raises o); [discriminate|].
  destruct (tmp_stem o) as [stem|]; [|discriminate].
  cbv zeta in Hrun.
  destruct (os_path_exists d (stem ++ lit ".png")); [discriminate|].
  destruct (unlink_raises o); [discriminate|].
  destruct (save_raises o), (close_raises o), (image_raises o), (caption_raises o);
    cbn [orb] in Hrun; try discriminate.
  destruct (output_raises o); [discriminate|].
  split; [intuition discriminate|]. split; [reflexivity|].
  intros Hw. rewrite Hw in Hrun. injection Hrun as _ <-. cbn [bound fs].
  apply write_file_exists.
Qed.

(** X12.  [create_pdf] removes no file and points no path elsewhere:
    whatever its outcome, a failing clean-up included, every path that
    led to a file before the call leads to the same file after it.  It
    swallows no exception either: it returns only when no call raised,
    and the PDF that [pdf.output] wrote is there then. *)
Theorem create_pdf_keeps_files o output_path d r st :
  create_pdf o output_path (entry d) = (r, st) ->
  (forall q i, files d !! q = Some i -> files (fs st) !! q = Some i) /\
  (r = Returned tt ->
   ~ fails_before_output o d /\ output_raises o = false /\
   (output_writes o = true -> os_path_exists (fs st) output_path = true)).
Proof.
  intros Hrun. split.
  - intros q i H. pose proof (create_pdf_keeps o output_path d q i H) as K.
    rewrite Hrun in K. exact K.
  - intros ->. exact (create_pdf_returned _ _ _ _ _ Hrun).
Qed.

(** X13.  When a call before [pdf.output] raises, [create_pdf] raises
    and no PDF is written.  The disk holds what it held when the
    clean-up worked or there was nothing to clean up; when it is the
    [os.unlink] of the clean-up that raises, the temporary file stays
    on the disk under its name and the output path holds what it
    held. *)
Theorem create_pdf_failure_leaves_disk o output_path d r st :
  fails_before_output o d ->
  create_pdf o output_path (entry d) = (r, st) ->
  r = Raised /\
  (unlink_raises o = false \/ (forall p, ~ makes_tmp o d p) -> files (fs st) = files d) /\
  (forall p, unlink_raises o = true -> makes_tmp o d p ->
     files (fs st) !! p = Some (fresh d) /\
     (p <> output_path -> files (fs st) !! output_path = files d !! output_path)).
Proof.
  intros Hf Hrun. rewrite create_pdf_run in Hrun.
  unfold fails_before_output in Hf. unfold makes_tmp.
  destruct (setup_raises o).
  { injection Hrun as <- <-. split; [reflexivity|]. split; [reflexivity|].
    intros p _ (H & _). discriminate. }
  destruct (tmp_stem o) as [stem|].
  2:{ injection Hrun as <- <-. split; [reflexivity|]. split; [reflexivity|].
      intros p _ (_ & s & H & _). discriminate. }
  cbv zeta in Hrun.
  destruct (os_path_exists d (stem ++ lit ".png")) eqn:Ex.
  { injection Hrun as <- <-. split; [reflexivity|]. split; [reflexivity|].
    intros p _ (_ & s & [= <-] & -> & H). congruence. }
  destruct (unlink_raises o).
  { injection Hrun as <- <-. cbn [bound fs]. split; [reflexivity|]. split.
    - intros [H|H]; [discriminate|]. exfalso. apply (H (stem ++ lit ".png")).
      split; [reflexivity|]. exists stem. auto.
    - intros p _ (_ & s & [= <-] & -> & _). cbn [create_file files].
      split; [apply lookup_insert_eq|]. intros Hne. apply lookup_insert_ne. exact Hne. }
  destruct (save_raises o || close_raises o || image_raises o || caption_raises o) eqn:Eb.
  { injection Hrun as <- <-. cbn [bound fs]. split; [reflexivity|].
    split; [intros _; apply unlink_created_files, Ex | discriminate]. }
  exfalso. apply orb_false_iff in Eb as [Eb Ec]. apply orb_false_iff in Eb as [Eb Ei].
  apply orb_false_iff in Eb as [Es Ecl].
  intuition congruence.
Qed.


(** * Bootstrap and orchestration *)










Lemma phone_check s : forallb phone_char s = true -> Forall phone_symbol s.
Proof.
  intros H. apply Forall_phone_char, List.Forall_forall.
  apply forallb_forall. exact H.
Qed.

End Program.

(** * Concrete runs

    The inputs below are ASCII, or ASCII and U+0130; on them the
    interpreter consults its tables only where [ucd_excerpt] has them. *)

(** The same base name resolved twice, the files of the first answer
    written in between: the second answer carries [-2]. *)
Example resolve_paths_twice :
  let d0 := {| files := ∅; fresh := O |} in
  let d1 := write_file (lit "archive/menu.pdf") (write_file (lit "archive/menu.png") d0) in
  resolve_paths 3 d0 (lit "archive") (lit "menu")
  = Some (lit "archive/menu.png", lit "archive/menu.pdf") /\
  resolve_paths 3 d1 (lit "archive") (lit "menu")
  = Some (lit "archive/menu-2.png", lit "archive/menu-2.pdf").
Proof. split; vm_compute; reflexivity. Qed.

(** C1, as stated, fails: with a leading blank the input has no
    [WIFI:] prefix, and no other rule holds of it, yet the verdict is
    wifi. *)
Lemma detect_type_raw_counterexample :
  ~ classify ucd_excerpt (lit " WIFI:x") (detect_type ucd_excerpt (lit " WIFI:x")).
Proof.
  assert (E : detect_type ucd_excerpt (lit " WIFI:x") = lit "wifi")
    by (vm_compute; reflexivity).
  rewrite E. unfold classify, rules. cbn [first_match]. intros H.
  destruct H as [[H _]|[_ H]]; [vm_compute in H; discriminate|].
  repeat (destruct H as [[_ H]|[_ H]]; [vm_compute in H; discriminate|]).
  vm_compute in H. discriminate.
Qed.

(** C2, as stated, fails: trailing white space is removed. *)
Lemma wifi_unchanged_counterexample :
  any_case_prefix "WIFI:" (lit "WIFI:T:WPA;; ") /\
  format_content ucd_excerpt (lit "WIFI:T:WPA;; ") (lit "wifi") <> lit "WIFI:T:WPA;; ".
Proof.
  split.
  - exists (lit "WIFI:"), (lit "T:WPA;; "). split; [reflexivity|].
    vm_compute. repeat constructor.
  - intros E. vm_compute in E. discriminate.
Qed.

Lemma wifi_passthrough_witness :
  any_case_prefix "WIFI:" (lit "wifi:T:WPA;S:Home;P:secret;; ") /\
  detect_type ucd_excerpt (lit "wifi:T:WPA;S:Home;P:secret;; ") = lit "wifi" /\
  format_content ucd_excerpt (lit "wifi:T:WPA;S:Home;P:secret;; ") (lit "text")
  = rstrip ucd_excerpt (lit "wifi:T:WPA;S:Home;P:secret;; ").
Proof.
  assert (H : any_case_prefix "WIFI:" (lit "wifi:T:WPA;S:Home;P:secret;; ")).
  { exists (lit "wifi:"), (lit "T:WPA;S:Home;P:secret;; "). split; [reflexivity|].
    vm_compute. repeat constructor. }
  split; [exact H|].
  destruct (wifi_passthrough ucd_excerpt _ H) as [Hd Hf].
  split; [exact Hd|]. apply (Hf (lit "text")). right. left. reflexivity.
Defined.

(** C5, as stated, fails beyond ASCII: fifty capital I with dot above
    pass the filter and the cut, and lower-casing turns each into two
    code points, the second of which is not a word character. *)
Lemma slug_length_counterexample :
  ~ (length (make_filename_safe ucd_excerpt (repeat 304%Z 50)) <= 50)%nat /\
  In 775 (make_filename_safe ucd_excerpt (repeat 304%Z 50)) /\
  isword ucd_excerpt 775 = false.
Proof.
  assert (E : make_filename_safe ucd_excerpt (repeat 304%Z 50)
              = concat (repeat [105%Z; 775%Z] 50)) by (vm_compute; reflexivity).
  rewrite E. split; [|split].
  - vm_compute. lia.
  - vm_compute. auto.
  - reflexivity.
Qed.

Lemma make_filename_pipeline_witness :
  Forall (fun ch => is_ascii ch = true) (lit "Front Desk / Wi-Fi!") /\
  make_filename ucd_excerpt {| year := 2026; month := 11; day := 3 |}
    (lit "Front Desk / Wi-Fi!")
  = lit "front-desk-wi-fi_2026-11-03" /\
  (length (slug ucd_excerpt (lit "Front Desk / Wi-Fi!")) <= 50)%nat /\
  Forall (fun ch => slug_char ch = true) (slug ucd_excerpt (lit "Front Desk / Wi-Fi!")).
Proof.
  assert (H : Forall (fun ch => is_ascii ch = true) (lit "Front Desk / Wi-Fi!"))
    by (vm_compute; repeat constructor).
  split; [exact H|]. split; [vm_compute; reflexivity|].
  apply (make_filename_pipeline ucd_excerpt {| year := 2026; month := 11; day := 3 |}
           (lit "Front Desk / Wi-Fi!")).
  exact H.
Defined.

(** C6, as stated, fails: the url rule comes first. *)
Lemma email_shape_counterexample :
  email_shape ucd_excerpt (lit "www.shop@example.com") /\
  detect_type ucd_excerpt (lit "www.shop@example.com") <> lit "email".
Proof.
  split.
  - exists (lit "www.shop"), (lit "example"), (lit "com").
    split; [reflexivity|]. repeat (split; [discriminate|]).
    repeat split; apply atoms_check; reflexivity.
  - intros E. vm_compute in E. discriminate.
Qed.

Lemma email_classified_and_prefixed_witness :
  email_shape ucd_excerpt (lit "paul@example.com") /\
  detect_type ucd_excerpt (lit "paul@example.com") = lit "email" /\
  format_content ucd_excerpt (lit "paul@example.com") (lit "email")
  = lit "mailto:paul@example.com".
Proof.
  assert (Hs : email_shape ucd_excerpt (lit "paul@example.com")).
  { exists (lit "paul"), (lit "example"), (lit "com").
    split; [reflexivity|]. repeat (split; [discriminate|]).
    repeat split; apply atoms_check; reflexivity. }
  destruct (email_classified_and_prefixed ucd_excerpt (lit "paul@example.com"))
    as (Hd & _ & Hf & _).
  split; [exact Hs|]. split.
  - apply Hd; [exact Hs | |].
    + unfold wifi_prefix. vm_compute. discriminate.
    + intros [(h & t & E & F)|[(h & t & E & F)|(h & t & E & F)]];
        vm_compute in F; inversion F as [|? a ? h1 Ha F1]; subst;
        vm_compute in E; injection E as <- _; vm_compute in Ha; discriminate.
  - apply Hf. unfold lower_prefix. vm_compute. discriminate.
Defined.

(** C7, as stated, fails: trailing white space is removed. *)
Lemma url_unchanged_counterexample :
  iprefix ucd_excerpt "http://" (lit "http://example.com ") /\
  format_content ucd_excerpt (lit "http://example.com ") (lit "url")
  <> lit "http://example.com ".
Proof.
  split.
  - exists (lit "http://"), (lit "example.com "). split; [reflexivity|].
    vm_compute. repeat constructor.
  - intros E. vm_compute in E. discriminate.
Qed.

Lemma url_prefixed_witness :
  iprefix ucd_excerpt "https://" (strip ucd_excerpt (lit " HTTPS://Example.com ")) /\
  format_content ucd_excerpt (lit " HTTPS://Example.com ") (lit "url")
  = lit "HTTPS://Example.com".
Proof.
  assert (H : iprefix ucd_excerpt "https://" (strip ucd_excerpt (lit " HTTPS://Example.com "))).
  { exists (lit "HTTPS://"), (lit "Example.com"). split; [reflexivity|].
    vm_compute. repeat constructor. }
  split; [exact H|].
  apply (proj1 (url_prefixed ucd_excerpt (lit " HTTPS://Example.com "))).
  right. exact H.
Defined.

Lemma format_content_strips_witness :
  In (lit "other") [lit "wifi"; lit "text"; lit "other"] /\
  format_content ucd_excerpt (lit "  free text ") (lit "other") = lit "free text".
Proof.
  assert (H : In (lit "other") [lit "wifi"; lit "text"; lit "other"])
    by (right; right; left; reflexivity).
  split; [exact H|].
  apply (proj1 (proj2 (format_content_strips ucd_excerpt (lit "  free text ") (lit "other")))).
  exact H.
Defined.

Lemma detect_type_strip_witness :
  Forall (fun ch => isspace ucd_excerpt ch = true) (lit "   ") /\
  detect_type ucd_excerpt (lit "   ") = lit "text".
Proof.
  assert (H : Forall (fun ch => isspace ucd_excerpt ch = true) (lit "   "))
    by (vm_compute; repeat constructor).
  split; [exact H|].
  apply (proj2 (detect_type_strip ucd_excerpt (lit "   "))). exact H.
Defined.

(** C4, as stated, fails: when the [os.unlink] of the [finally] block
    raises, [create_pdf] ends by propagating that exception and the
    temporary PNG file it created is still on the disk. *)
Lemma create_pdf_unlink_counterexample :
  let o := {| setup_raises := false; tmp_stem := Some (lit "/tmp/tmpk3x9");
              save_raises := false; close_raises := false; image_raises := false;
              unlink_raises := true;
              caption_raises := false; output_writes := true; output_raises := false |} in
  let d := {| files := ∅; fresh := O |} in
  let run := create_pdf o (lit "out.pdf") (entry d) in
  os_path_exists d (lit "/tmp/tmpk3x9.png") = false /\
  fst run = Raised /\
  tmp (snd run) = Some {| name := lit "/tmp/tmpk3x9.png"; ident := O |} /\
  os_path_exists (fs (snd run)) (lit "/tmp/tmpk3x9.png") = true /\
  files (fs (snd run)) !! lit "/tmp/tmpk3x9.png" = Some O.
Proof. repeat split; vm_compute; reflexivity. Qed.

Lemma create_pdf_removes_tmp_witness :
  let o := {| setup_raises := false; tmp_stem := Some (lit "/tmp/tmpk3x9");
              save_raises := false; close_raises := false; image_raises := true;
              unlink_raises := false;
              caption_raises := false; output_writes := true; output_raises := false |} in
  let d := {| files := ∅; fresh := O |} in
  let run := create_pdf o (lit "out.pdf") (entry d) in
  disk_wf d /\
  makes_tmp o d (lit "/tmp/tmpk3x9.png") /\
  unlink_raises o = false /\
  fst run = Raised /\
  tmp (snd run) = Some {| name := lit "/tmp/tmpk3x9.png"; ident := O |} /\
  (forall q, files (fs (snd run)) !! q <> Some O) /\
  (lit "/tmp/tmpk3x9.png" <> lit "out.pdf" ->
   os_path_exists (fs (snd run)) (lit "/tmp/tmpk3x9.png") = false).
Proof.
  intros o d run.
  assert (Hwf : disk_wf d).
  { intros p i H. unfold d in H. cbn [files] in H. rewrite lookup_empty in H. discriminate. }
  assert (Hm : makes_tmp o d (lit "/tmp/tmpk3x9.png")).
  { split; [reflexivity|]. exists (lit "/tmp/tmpk3x9"). repeat split; reflexivity. }
  split; [exact Hwf|]. split; [exact Hm|]. split; [reflexivity|].
  split; [vm_compute; reflexivity|].
  destruct (create_pdf_removes_tmp o (lit "out.pdf") d (lit "/tmp/tmpk3x9.png")
              (fst run) (snd run) Hwf Hm (surjective_pairing run)) as (Ht & Hgone & _).
  split; [exact Ht|]. exact (Hgone eq_refl).
Defined.

(** * Concrete runs of the further properties *)

Lemma format_content_scheme_witness :
  lit "phone" = lit "phone" /\
  lower_prefix ucd_excerpt "tel:" (format_content ucd_excerpt (lit " 555-0100 ") (lit "phone")).
Proof.
  split; [reflexivity|].
  destruct (format_content_scheme ucd_excerpt (lit " 555-0100 ") (lit "phone"))
    as (_ & _ & _ & H & _).
  apply H. reflexivity.
Defined.

Lemma encoded_empty_witness :
  In (lit "url") [lit "url"; lit "email"; lit "phone"] /\
  format_content ucd_excerpt (lit "   ") (lit "url") <> [].
Proof.
  assert (H : In (lit "url") [lit "url"; lit "email"; lit "phone"]) by (left; reflexivity).
  split; [exact H|].
  apply (proj2 (encoded_empty ucd_excerpt (lit "   ")) (lit "url") H).
Defined.

Lemma url_prefix_detected_witness :
  any_case_prefix "www." (strip ucd_excerpt (lit " WWW.Example.org")) /\
  detect_type ucd_excerpt (lit " WWW.Example.org") = lit "url".
Proof.
  assert (H : any_case_prefix "www." (strip ucd_excerpt (lit " WWW.Example.org"))).
  { exists (lit "WWW."), (lit "Example.org"). split; [reflexivity|].
    vm_compute. repeat constructor. }
  split; [exact H|].
  apply (url_prefix_detected ucd_excerpt (lit " WWW.Example.org")). right. right. exact H.
Defined.

Lemma scheme_prefix_detected_witness :
  any_case_prefix "tel:" (strip ucd_excerpt (lit "tel:bob@example.com")) /\
  email_shape ucd_excerpt (strip ucd_excerpt (lit "tel:bob@example.com")) /\
  detect_type ucd_excerpt (lit "tel:bob@example.com") = lit "email".
Proof.
  assert (H : any_case_prefix "tel:" (strip ucd_excerpt (lit "tel:bob@example.com"))).
  { exists (lit "tel:"), (lit "bob@example.com"). split; [reflexivity|].
    vm_compute. repeat constructor. }
  assert (He : email_shape ucd_excerpt (strip ucd_excerpt (lit "tel:bob@example.com"))).
  { exists (lit "tel:bob"), (lit "example"), (lit "com").
    split; [reflexivity|]. repeat (split; [discriminate|]).
    repeat split; apply atoms_check; reflexivity. }
  split; [exact H|]. split; [exact He|].
  apply (proj2 (scheme_prefix_detected ucd_excerpt (lit "tel:bob@example.com")) H). exact He.
Defined.

Lemma phone_shape_detected_witness :
  Forall (fun ch => is_ascii ch = true) (lit " (555) 123-4567 ") /\
  phone_shape ucd_excerpt (strip ucd_excerpt (lit " (555) 123-4567 ")) /\
  detect_type ucd_excerpt (lit " (555) 123-4567 ") = lit "phone".
Proof.
  assert (Ha : Forall (fun ch => is_ascii ch = true) (lit " (555) 123-4567 "))
    by (apply List.Forall_forall, forallb_forall; reflexivity).
  assert (Hp : phone_shape ucd_excerpt (strip ucd_excerpt (lit " (555) 123-4567 "))).
  { exists (lit "(555) 123-4567"). split; [left; reflexivity|].
    split; [vm_compute; lia | apply phone_check; reflexivity]. }
  split; [exact Ha|]. split; [exact Hp|].
  exact (phone_shape_detected ucd_excerpt _ Ha Hp).
Defined.

Lemma make_filename_fallback_witness :
  Forall (fun ch => isword ucd_excerpt ch = false /\ ch <> chr "-") (lit "?! ...") /\
  make_filename ucd_excerpt {| year := 2026; month := 11; day := 3 |} (lit "?! ...")
  = lit "qr-code_2026-11-03".
Proof.
  assert (H : Forall (fun ch => isword ucd_excerpt ch = false /\ ch <> chr "-") (lit "?! ...")).
  { change (lit "?! ...") with [63; 33; 32; 46; 46; 46].
    repeat (constructor; [split; [reflexivity | discriminate]|]). constructor. }
  split; [exact H|].
  exact (make_filename_fallback ucd_excerpt {| year := 2026; month := 11; day := 3 |} _ H).
Defined.

Lemma make_filename_safe_idempotent_witness :
  Forall (fun ch => is_ascii ch = true) (lit "Front Desk / Wi-Fi!") /\
  make_filename_safe ucd_excerpt (lit "Front Desk / Wi-Fi!") = lit "front-desk-wi-fi" /\
  make_filename_safe ucd_excerpt (make_filename_safe ucd_excerpt (lit "Front Desk / Wi-Fi!"))
  = make_filename_safe ucd_excerpt (lit "Front Desk / Wi-Fi!").
Proof.
  assert (H : Forall (fun ch => is_ascii ch = true) (lit "Front Desk / Wi-Fi!"))
    by (apply List.Forall_forall, forallb_forall; reflexivity).
  split; [exact H|]. split; [reflexivity|].
  exact (make_filename_safe_idempotent ucd_excerpt _ H).
Defined.

Lemma make_filename_in_archive_witness :
  Forall (fun ch => is_ascii ch = true) (lit "../../etc/passwd") /\
  valid_date {| year := 2026; month := 11; day := 3 |} /\
  candidate (lit "/srv/qr/archive")
    (make_filename ucd_excerpt {| year := 2026; month := 11; day := 3 |}
       (lit "../../etc/passwd")) 1
  = (lit "/srv/qr/archive/etcpasswd_2026-11-03-2.png",
     lit "/srv/qr/archive/etcpasswd_2026-11-03-2.pdf").
Proof.
  assert (Ha : Forall (fun ch => is_ascii ch = true) (lit "../../etc/passwd"))
    by (apply List.Forall_forall, forallb_forall; reflexivity).
  assert (Hd : valid_date {| year := 2026; month := 11; day := 3 |})
    by (unfold valid_date; simpl; lia).
  split; [exact Ha|]. split; [exact Hd|].
  destruct (make_filename_in_archive ucd_excerpt
              {| year := 2026; month := 11; day := 3 |} (lit "../../etc/passwd")
              (lit "/srv/qr/archive") 1 Ha Hd) as (_ & _ & _ & E).
  rewrite E. reflexivity.
Defined.

Lemma resolve_paths_moves_on_witness :
  let d := {| files := ∅; fresh := O |} in
  let d' := written (candidate (lit "archive") (lit "menu") 0) d in
  free d (candidate (lit "archive") (lit "menu") 0) /\
  free d (candidate (lit "archive") (lit "menu") 1) /\
  exists j', (0 < j')%nat /\
    resolve_paths (size (files d') + 2) d' (lit "archive") (lit "menu")
    = Some (candidate (lit "archive") (lit "menu") j') /\
    j' = 1%nat.
Proof.
  intros d d'.
  assert (H0 : free d (candidate (lit "archive") (lit "menu") 0))
    by (split; reflexivity).
  assert (H1 : free d (candidate (lit "archive") (lit "menu") 1))
    by (split; reflexivity).
  split; [exact H0|]. split; [exact H1|].
  destruct (resolve_paths_moves_on d (lit "archive") (lit "menu") 0 H0
              ltac:(intros i Hi; lia)) as (j' & Hlt & Hres & _ & Hnext).
  exists j'. split; [exact Hlt|]. split; [exact Hres | exact (Hnext H1)].
Defined.

Lemma create_pdf_keeps_files_witness :
  let o := {| setup_raises := false; tmp_stem := Some (lit "/tmp/tmpk3x9");
              save_raises := false; close_raises := false; image_raises := false;
              unlink_raises := true;
              caption_raises := false; output_writes := true; output_raises := false |} in
  let run := create_pdf o (lit "/srv/qr/notes.txt") (entry small_disk) in
  files small_disk !! lit "/srv/qr/notes.txt" = Some O /\
  fst run = Raised /\
  files (fs (snd run)) !! lit "/srv/qr/notes.txt" = Some O.
Proof.
  intros o run.
  assert (H : files small_disk !! lit "/srv/qr/notes.txt" = Some O)
    by (vm_compute; reflexivity).
  split; [exact H|]. split; [vm_compute; reflexivity|].
  exact (proj1 (create_pdf_keeps_files o (lit "/srv/qr/notes.txt") small_disk
                  (fst run) (snd run) (surjective_pairing run)) _ _ H).
Defined.

Lemma create_pdf_failure_leaves_disk_witness :
  let o := {| setup_raises := false; tmp_stem := Some (lit "/tmp/tmpk3x9");
              save_raises := false; close_raises := false; image_raises := true;
              unlink_raises := true;
              caption_raises := false; output_writes := true; output_raises := false |} in
  let run := create_pdf o (lit "/srv/qr/archive/menu.pdf") (entry small_disk) in
  fails_before_output o small_disk /\
  makes_tmp o small_disk (lit "/tmp/tmpk3x9.png") /\
  fst run = Raised /\
  files (fs (snd run)) !! lit "/tmp/tmpk3x9.png" = Some 1%nat /\
  files (fs (snd run)) !! lit "/srv/qr/archive/menu.pdf" = None.
Proof.
  intros o run.
  assert (Hf : fails_before_output o small_disk)
    by (right; right; right; right; left; reflexivity).
  assert (Hm : makes_tmp o small_disk (lit "/tmp/tmpk3x9.png")).
  { split; [reflexivity|]. exists (lit "/tmp/tmpk3x9"). repeat split; reflexivity. }
  split; [exact Hf|]. split; [exact Hm|].
  destruct (create_pdf_failure_leaves_disk o (lit "/srv/qr/archive/menu.pdf") small_disk
              (fst run) (snd run) Hf (surjective_pairing run)) as (Hr & _ & Hleft).
  split; [exact Hr|]. destruct (Hleft _ eq_refl Hm) as [Htmp Hout].
  split; [exact Htmp|]. rewrite Hout; [reflexivity|].
  intros E. vm_compute in E. discriminate.
Defined.




